(** * codecks-telegram-bot: the project cache and its remote client

    A shallow embedding of [codecks_api.py] and [codecks_data.py].

    Python values are embedded as the inductive [pyval]; a [dict] is an
    association list in insertion order whose keys are pairwise distinct
    ([dict_wf]); a [str] is a [string] whose characters are read as the code
    points 0..255 (on that range the class [\d] of [re] is exactly '0'..'9'
    and [str.lower] is the map [lower_char] below).  A call that may raise
    returns a [result].  The clock, the remote service and the file system
    are inputs of the functions that use them. *)

From Stdlib Require Import ZArith List String Ascii Bool Lia.
From Stdlib Require Import Sorting.Sorted Sorting.Permutation.
Import ListNotations.

Set Warnings "-register-all".

Local Open Scope string_scope.
Local Open Scope list_scope.
Local Open Scope Z_scope.

(* ================================================================== *)
(** * Exceptions and fallible computations *)
(* ================================================================== *)

Inductive exn : Type :=
| AttributeError
| TypeError
| ValueError
| KeyError
| IndexError
| OverflowError
| OSError
| Timeout
| ConnectionError
| RequestException
| JSONDecodeError
| KeyboardInterrupt
| SystemExit.

Inductive result (A : Type) : Type :=
| Ok (a : A)
| Raise (e : exn).

Arguments Ok {A} a.
Arguments Raise {A} e.

Definition bind {A B : Type} (r : result A) (k : A -> result B) : result B :=
  match r with
  | Ok a => k a
  | Raise e => Raise e
  end.

Notation "x <- r ;; k" := (bind r (fun x => k))
  (at level 61, r at next level, right associativity).

(** The comprehension [[elt(x) for x in l if cond(x)]]: the elements are
    visited from left to right, the condition is evaluated before the
    element's value, and the first exception ends the evaluation. *)
Fixpoint comprehension {A B : Type} (cond : A -> result bool)
    (elt : A -> result B) (l : list A) : result (list B) :=
  match l with
  | [] => Ok []
  | a :: l' =>
      c <- cond a ;;
      if c then
        b <- elt a ;; r <- comprehension cond elt l' ;; Ok (b :: r)
      else comprehension cond elt l'
  end.

Definition always {A : Type} (_ : A) : result bool := Ok true.

(* ================================================================== *)
(** * Dates: the part of [datetime] the cache uses *)
(* ================================================================== *)

Module Dates.

Record datetime : Type := mkDT {
  year : Z; month : Z; day : Z;
  hour : Z; minute : Z; second : Z; microsecond : Z
}.

Definition dt_fields (t : datetime) : list Z :=
  [year t; month t; day t; hour t; minute t; second t; microsecond t].

(** Comparison of two naive datetimes is the comparison of their field
    tuples. *)
Fixpoint lex_compare (a b : list Z) : comparison :=
  match a, b with
  | [], [] => Eq
  | [], _ :: _ => Lt
  | _ :: _, [] => Gt
  | x :: a', y :: b' =>
      match x ?= y with
      | Eq => lex_compare a' b'
      | c => c
      end
  end.

Definition dt_compare (a b : datetime) : comparison :=
  lex_compare (dt_fields a) (dt_fields b).

Definition dt_ltb (a b : datetime) : bool :=
  match dt_compare a b with Lt => true | _ => false end.

Definition dt_leb (a b : datetime) : bool :=
  match dt_compare a b with Gt => false | _ => true end.

Definition dt_le (a b : datetime) : Prop := dt_leb a b = true.
Definition dt_lt (a b : datetime) : Prop := dt_ltb a b = true.

(** Calendar arithmetic, as [datetime] does it. *)
Definition is_leap (y : Z) : bool :=
  (y mod 4 =? 0) && (negb (y mod 100 =? 0) || (y mod 400 =? 0)).

Definition days_before_year (y : Z) : Z :=
  let p := y - 1 in p * 365 + p / 4 - p / 100 + p / 400.

Definition DAYS_IN_MONTH (m : Z) : Z :=
  if m =? 2 then 28
  else if (m =? 4) || (m =? 6) || (m =? 9) || (m =? 11) then 30
  else 31.

Definition DAYS_BEFORE_MONTH (m : Z) : Z :=
  nth (Z.to_nat m) [0; 0; 31; 59; 90; 120; 151; 181; 212; 243; 273; 304; 334] 0.

Definition days_in_month (y m : Z) : Z :=
  if (m =? 2) && is_leap y then 29 else DAYS_IN_MONTH m.

Definition days_before_month (y m : Z) : Z :=
  DAYS_BEFORE_MONTH m + (if (2 <? m) && is_leap y then 1 else 0).

Definition ymd2ord (y m d : Z) : Z :=
  days_before_year y + days_before_month y m + d.

Definition toordinal (t : datetime) : Z := ymd2ord (year t) (month t) (day t).

Definition DI400Y : Z := 146097.
Definition DI100Y : Z := 36524.
Definition DI4Y : Z := 1461.
Definition MAXORDINAL : Z := 3652059.

Definition ord2ymd (ordinal : Z) : Z * Z * Z :=
  let n := ordinal - 1 in
  let n400 := n / DI400Y in
  let n := n mod DI400Y in
  let y := n400 * 400 + 1 in
  let n100 := n / DI100Y in
  let n := n mod DI100Y in
  let n4 := n / DI4Y in
  let n := n mod DI4Y in
  let n1 := n / 365 in
  let n := n mod 365 in
  let y := y + n100 * 100 + n4 * 4 + n1 in
  if (n1 =? 4) || (n100 =? 4) then (y - 1, 12, 31)
  else
    let leapyear := (n1 =? 3) && (negb (n4 =? 24) || (n100 =? 3)) in
    let m := Z.shiftr (n + 50) 5 in
    let preceding :=
      DAYS_BEFORE_MONTH m + (if (2 <? m) && leapyear then 1 else 0) in
    if n <? preceding then
      let m' := m - 1 in
      let preceding' :=
        preceding - (DAYS_IN_MONTH m' + (if (m' =? 2) && leapyear then 1 else 0)) in
      (y, m', n - preceding' + 1)
    else (y, m, n - preceding + 1).

(** [t + datetime.timedelta(days=n)]: the constructor of [timedelta] and the
    sum both raise [OverflowError] out of range; the time of day is kept. *)
Definition add_days (t : datetime) (n : Z) : result datetime :=
  if (n <? -999999999) || (999999999 <? n) then Raise OverflowError
  else
    let o := toordinal t + n in
    if (o <? 1) || (MAXORDINAL <? o) then Raise OverflowError
    else
      let '(y, m, d) := ord2ymd o in
      Ok (mkDT y m d (hour t) (minute t) (second t) (microsecond t)).

(** Decimal digits. *)
Definition is_digit (c : ascii) : bool :=
  let n := nat_of_ascii c in (48 <=? n)%nat && (n <=? 57)%nat.

Definition digit_val (c : ascii) : Z := Z.of_nat (nat_of_ascii c) - 48.

Definition digit_char (n : Z) : ascii := ascii_of_nat (Z.to_nat (48 + n mod 10)).

Definition two_digits (n : Z) : string :=
  String (digit_char (n / 10)) (String (digit_char n) EmptyString).

Definition four_digits (n : Z) : string :=
  String (digit_char (n / 1000)) (String (digit_char (n / 100))
    (two_digits n)).

(** [t.strftime("%Y-%m-%dT%H:%M:%SZ")], for a year of four digits. *)
Definition strftime_iso (t : datetime) : string :=
  (four_digits (year t) ++ "-" ++ two_digits (month t) ++ "-"
   ++ two_digits (day t) ++ "T" ++ two_digits (hour t) ++ ":"
   ++ two_digits (minute t) ++ ":" ++ two_digits (second t) ++ "Z")%string.

(** ** [strptime(s, "[%d/%m/%y]")]

    The format is turned into the pattern
    [\[(3[0-1]|[1-2]\d|0[1-9]|[1-9]| [1-9])/(1[0-2]|0[1-9]|[1-9])/(\d\d)\]],
    which has to consume the whole string; a year up to 68 is read in the
    2000s, a later one in the 1900s, and the date has to exist. *)

Definition expect (c : ascii) (s : string) : option string :=
  match s with
  | String a rest => if Ascii.eqb a c then Some rest else None
  | EmptyString => None
  end.

Definition in_range (lo hi : nat) (c : ascii) : bool :=
  let n := nat_of_ascii c in (lo <=? n)%nat && (n <=? hi)%nat.

Definition parse_day (s : string) : option (Z * string) :=
  match s with
  | String a (String b rest) =>
      if (Ascii.eqb a "3" && in_range 48 49 b)
         || (in_range 49 50 a && is_digit b)
         || (Ascii.eqb a "0" && in_range 49 57 b)
      then Some (10 * digit_val a + digit_val b, rest)
      else if in_range 49 57 a then Some (digit_val a, String b rest)
      else if Ascii.eqb a " " && in_range 49 57 b then Some (digit_val b, rest)
      else None
  | String a EmptyString =>
      if in_range 49 57 a then Some (digit_val a, EmptyString) else None
  | EmptyString => None
  end.

Definition parse_month (s : string) : option (Z * string) :=
  match s with
  | String a (String b rest) =>
      if (Ascii.eqb a "1" && in_range 48 50 b)
         || (Ascii.eqb a "0" && in_range 49 57 b)
      then Some (10 * digit_val a + digit_val b, rest)
      else if in_range 49 57 a then Some (digit_val a, String b rest)
      else None
  | String a EmptyString =>
      if in_range 49 57 a then Some (digit_val a, EmptyString) else None
  | EmptyString => None
  end.

Definition parse_year2 (s : string) : option (Z * string) :=
  match s with
  | String a (String b rest) =>
      if is_digit a && is_digit b
      then Some (10 * digit_val a + digit_val b, rest)
      else None
  | _ => None
  end.

Definition parse_due (s : string) : option (Z * Z * Z) :=
  match expect "[" s with
  | None => None
  | Some s1 =>
    match parse_day s1 with
    | None => None
    | Some (d, s2) =>
      match expect "/" s2 with
      | None => None
      | Some s3 =>
        match parse_month s3 with
        | None => None
        | Some (m, s4) =>
          match expect "/" s4 with
          | None => None
          | Some s5 =>
            match parse_year2 s5 with
            | None => None
            | Some (y, s6) =>
              match expect "]" s6 with
              | Some EmptyString => Some (d, m, y)
              | _ => None
              end
            end
          end
        end
      end
    end
  end.

Definition strptime_due (s : string) : result datetime :=
  match parse_due s with
  | None => Raise ValueError
  | Some (d, m, y) =>
      let yy := if y <=? 68 then 2000 + y else 1900 + y in
      if d <=? days_in_month yy m then Ok (mkDT yy m d 0 0 0 0)
      else Raise ValueError
  end.

End Dates.

(* ================================================================== *)
(** * Python values and dictionaries *)
(* ================================================================== *)

Module Py.

Import Dates.

(** What [json.load] and [response.json()] produce (numbers with a fraction
    left out: no operation of the cache looks into a number), and the
    [datetime] object the cache stores under ["last_update"]. *)
Inductive pyval : Type :=
| PNone
| PBool (b : bool)
| PInt (z : Z)
| PStr (s : string)
| PList (l : list pyval)
| PDict (d : list (string * pyval))
| PDatetime (t : datetime).

Definition pydict : Type := list (string * pyval).

Fixpoint dict_get (k : string) (d : pydict) : option pyval :=
  match d with
  | [] => None
  | (k', v) :: d' => if String.eqb k' k then Some v else dict_get k d'
  end.

(** [d[k] = v]: a key already present keeps its place, a new key goes last. *)
Fixpoint dict_set (k : string) (v : pyval) (d : pydict) : pydict :=
  match d with
  | [] => [(k, v)]
  | (k', v') :: d' =>
      if String.eqb k' k then (k, v) :: d' else (k', v') :: dict_set k v d'
  end.

(** [d.update(p)] for a dict [p]: its items are assigned in order. *)
Definition dict_update (d p : pydict) : pydict :=
  fold_left (fun acc kv => dict_set (fst kv) (snd kv) acc) p d.

(** The value a key ends up with when [p] is assigned item by item. *)
Fixpoint last_value (k : string) (p : pydict) : option pyval :=
  match p with
  | [] => None
  | (k', v) :: p' =>
      match last_value k p' with
      | Some w => Some w
      | None => if String.eqb k' k then Some v else None
      end
  end.

Definition dict_keys (d : pydict) : list string := map fst d.
Definition dict_values (d : pydict) : list pyval := map snd d.

Definition dict_wf (d : pydict) : Prop := NoDup (dict_keys d).

(** [d.get(k, default)] on a dict. *)
Definition get_or (k : string) (default : pyval) (d : pydict) : pyval :=
  match dict_get k d with
  | Some v => v
  | None => default
  end.

(** [o.get(k, default)] on any value: only a dict has the method. *)
Definition py_get (o : pyval) (k : string) (default : pyval) : result pyval :=
  match o with
  | PDict d => Ok (get_or k default d)
  | _ => Raise AttributeError
  end.

(** [a == b]. [True] and [False] are the integers 1 and 0; two dicts are
    equal when they hold equal values under the same keys, in any order. *)
Fixpoint py_eq (a b : pyval) {struct a} : bool :=
  match a, b with
  | PNone, PNone => true
  | PBool x, PBool y => Bool.eqb x y
  | PBool x, PInt z => z =? (if x then 1 else 0)
  | PInt z, PBool x => z =? (if x then 1 else 0)
  | PInt x, PInt y => x =? y
  | PStr s, PStr t => String.eqb s t
  | PList l, PList m =>
      (fix all2 (l : list pyval) (m : list pyval) {struct l} : bool :=
         match l, m with
         | [], [] => true
         | x :: l', y :: m' => py_eq x y && all2 l' m'
         | _, _ => false
         end) l m
  | PDict d, PDict e =>
      (List.length d =? List.length e)%nat &&
      (fix sub (d : list (string * pyval)) {struct d} : bool :=
         match d with
         | [] => true
         | (k, v) :: d' =>
             match dict_get k e with
             | Some w => py_eq v w
             | None => false
             end && sub d'
         end) d
  | PDatetime s, PDatetime t =>
      match dt_compare s t with Eq => true | _ => false end
  | _, _ => false
  end.

(** [x in l] for a list [l]. *)
Definition py_in (x : pyval) (l : list pyval) : bool := existsb (py_eq x) l.

(** Truth value of a response: [None] and the empty dict are false. *)
Definition truthy (r : option pydict) : bool :=
  match r with
  | Some (_ :: _) => true
  | _ => false
  end.

(** ** Strings *)

(** [str.lower] on the code points 0..255. *)
Definition lower_char (c : ascii) : ascii :=
  let n := nat_of_ascii c in
  if ((65 <=? n) && (n <=? 90))%nat
     || ((192 <=? n) && (n <=? 222) && negb (n =? 215))%nat
  then ascii_of_nat (n + 32)
  else c.

Fixpoint lower (s : string) : string :=
  match s with
  | EmptyString => EmptyString
  | String c s' => String (lower_char c) (lower s')
  end.

Fixpoint starts_with (p s : string) : bool :=
  match p, s with
  | EmptyString, _ => true
  | String a p', String b s' => Ascii.eqb a b && starts_with p' s'
  | String _ _, EmptyString => false
  end.

(** [needle in hay] for two strings. *)
Fixpoint contains (needle hay : string) : bool :=
  starts_with needle hay ||
  match hay with
  | EmptyString => false
  | String _ hay' => contains needle hay'
  end.

(** ** The pattern [DATE_REGEX = r"\[\d{2}/\d{2}/\d{2}\]"] *)

(** [re.match(DATE_REGEX, s)]: the token at the head of [s], if any. *)
Definition DATE_REGEX (s : string) : option string :=
  match s with
  | String o (String d1 (String d2 (String s1 (String m1 (String m2
      (String s2 (String y1 (String y2 (String c _))))))))) =>
      if Ascii.eqb o "[" && is_digit d1 && is_digit d2 && Ascii.eqb s1 "/"
         && is_digit m1 && is_digit m2 && Ascii.eqb s2 "/"
         && is_digit y1 && is_digit y2 && Ascii.eqb c "]"
      then Some (String o (String d1 (String d2 (String s1 (String m1
             (String m2 (String s2 (String y1 (String y2
               (String c EmptyString))))))))))
      else None
  | _ => None
  end.

(** [re.search(DATE_REGEX, s)] as a truth value. *)
Fixpoint re_search (s : string) : bool :=
  match DATE_REGEX s with
  | Some _ => true
  | None =>
      match s with
      | EmptyString => false
      | String _ s' => re_search s'
      end
  end.

(** [re.findall(DATE_REGEX, s)]: the matches from left to right, the scan
    resuming after the end of each match ([skip] characters are still to be
    passed over). *)
Fixpoint findall_from (skip : nat) (s : string) : list string :=
  match s with
  | EmptyString => []
  | String _ s' =>
      match skip with
      | S k => findall_from k s'
      | O =>
          match DATE_REGEX s with
          | Some tok => tok :: findall_from 9 s'
          | None => findall_from 0 s'
          end
      end
  end.

Definition re_findall (s : string) : list string := findall_from 0 s.

End Py.

(* ================================================================== *)
(** * codecks_api.py: the remote client *)
(* ================================================================== *)

Module CodecksAPI.

Import Py.

(** The classes the three [except] clauses of [make_request] name.
    [requests.exceptions.Timeout] and [ConnectionError] derive from
    [RequestException], as does the error [Response.json] raises on a body
    that is not JSON; [KeyboardInterrupt] and [SystemExit] derive from
    [BaseException] only. *)
Definition isinstance_Timeout (e : exn) : bool :=
  match e with Timeout => true | _ => false end.

Definition isinstance_RequestException (e : exn) : bool :=
  match e with
  | Timeout | ConnectionError | RequestException | JSONDecodeError => true
  | _ => false
  end.

Definition isinstance_Exception (e : exn) : bool :=
  match e with
  | KeyboardInterrupt | SystemExit => false
  | _ => true
  end.

(** A [requests.Response]: its status and what [response.json()] gives. *)
Record Response : Type := mkResponse {
  status_code : Z;
  json : result pyval
}.

(** [None] is returned for every status but 200. *)
Definition handle_response (response : Response) : result pyval :=
  if status_code response =? 200 then json response
  else Ok PNone.

(** [requests.request(...)] either hands back a response or raises; the
    body of the [try] returns the outcome of [handle_response], each of the
    three clauses logs and falls through to [return None]. *)
Definition make_request (sent : result Response) : result pyval :=
  match (response <- sent ;; handle_response response) with
  | Ok payload => Ok payload
  | Raise e =>
      if isinstance_Timeout e then Ok PNone
      else if isinstance_RequestException e then Ok PNone
      else if isinstance_Exception e then Ok PNone
      else Raise e
  end.

End CodecksAPI.

(* ================================================================== *)
(** * codecks_data.py: the project cache *)
(* ================================================================== *)

Module CodecksData.

Import Dates Py.

(** A response of the remote client is, as the methods annotate it, a dict
    or [None]: an [option pydict]. *)

(** [self.last_update] is the [datetime] object of [__init__] and
    [load_project], or the string [strftime] made from a clock reading. *)
Inductive stamp : Type :=
| StampDatetime (t : datetime)
| StampText (t : datetime).

Definition to_seconds (t : datetime) : datetime :=
  mkDT (year t) (month t) (day t) (hour t) (minute t) (second t) 0.

(** The instant a stamp stands for; the text has no microseconds. *)
Definition stamp_time (s : stamp) : datetime :=
  match s with
  | StampDatetime t => t
  | StampText t => to_seconds t
  end.

Definition stamp_value (s : stamp) : pyval :=
  match s with
  | StampDatetime t => PDatetime t
  | StampText t => PStr (strftime_iso t)
  end.

(** The file at [data_filepath]: absent, holding a document, or left
    truncated by a dump that failed. *)
Inductive file : Type :=
| Absent
| Document (d : pydict)
| Damaged.

Record state : Type := mkState {
  data : pydict;
  last_update : stamp;
  mirror : file
}.

Definition set_data (d : pydict) (st : state) : state :=
  mkState d (last_update st) (mirror st).
Definition set_last_update (s : stamp) (st : state) : state :=
  mkState (data st) s (mirror st).
Definition set_mirror (f : file) (st : state) : state :=
  mkState (data st) (last_update st) f.

Definition init : state :=
  mkState [] (StampDatetime (mkDT 1970 1 1 0 0 0 0)) Absent.

(** How the file system answers one [save_project]. *)
Inductive disk : Type :=
| DiskOk
| MkdirFails
| OpenFails
| WriteFails.

(** [json.dump] raises [TypeError] on a [datetime]. *)
Fixpoint serializable (v : pyval) : bool :=
  match v with
  | PDatetime _ => false
  | PList l =>
      (fix all (l : list pyval) : bool :=
         match l with
         | [] => true
         | x :: l' => serializable x && all l'
         end) l
  | PDict d =>
      (fix all (d : list (string * pyval)) : bool :=
         match d with
         | [] => true
         | (_, x) :: d' => serializable x && all d'
         end) d
  | _ => true
  end.

(** Calling an [async def] builds a coroutine; its body runs when the
    coroutine is awaited, and not at all when the object is dropped. *)
Definition coroutine : Type := state -> result state.
Definition await (c : coroutine) (st : state) : result state := c st.
Definition not_awaited (c : coroutine) (st : state) : state := st.

(** [os.makedirs] is outside the [try]: its failure leaves [save_project]
    as an exception, which ends the start-up that awaited it.  Anything
    raised by [open] or [json.dump] is logged. *)
Definition save_project (fs : disk) : coroutine := fun st =>
  let last_updated := last_update st in
  match fs with
  | MkdirFails => Raise OSError
  | _ =>
      let st1 := set_data (dict_set "last_update" (stamp_value last_updated) (data st)) st in
      match fs with
      | OpenFails => Ok st1
      | WriteFails => Ok (set_mirror Damaged st1)
      | _ =>
          if serializable (PDict (data st1))
          then Ok (set_mirror (Document (data st1)) st1)
          else Ok (set_mirror Damaged st1)
      end
  end.

(** [last_update] is set before the fetch, whatever its outcome. *)
Definition get_project_data (now : datetime) (response : option pydict)
    (fs : disk) : coroutine := fun st =>
  let st1 := set_last_update (StampText now) st in
  if truthy response then
    match response with
    | Some r => await (save_project fs) (set_data r st1)
    | None => Ok st1
    end
  else Ok st1.

(** The merge: [self.data.update(response)] under the data lock, then the
    call [self.save_project()] whose coroutine is not awaited. *)
Definition get_card_data (response : option pydict) (fs : disk) (st : state) : state :=
  if truthy response then
    match response with
    | Some r => not_awaited (save_project fs) (set_data (dict_update (data st) r) st)
    | None => st
    end
  else st.

(** [len(v)] and iteration over [v]. *)
Fixpoint chars (s : string) : list pyval :=
  match s with
  | EmptyString => []
  | String c s' => PStr (String c EmptyString) :: chars s'
  end.

Definition py_len (v : pyval) : result Z :=
  match v with
  | PList l => Ok (Z.of_nat (List.length l))
  | PDict d => Ok (Z.of_nat (List.length d))
  | PStr s => Ok (Z.of_nat (String.length s))
  | _ => Raise TypeError
  end.

Definition py_iter (v : pyval) : result (list pyval) :=
  match v with
  | PList l => Ok l
  | PDict d => Ok (map PStr (dict_keys d))
  | PStr s => Ok (chars s)
  | _ => Raise TypeError
  end.

(** [activity["card"]]. *)
Definition card_of (activity : pyval) : result pyval :=
  match activity with
  | PDict d =>
      match dict_get "card" d with
      | Some v => Ok v
      | None => Raise KeyError
      end
  | _ => Raise TypeError
  end.

(** The remote service as one refresh cycle meets it, the clock reading of
    the cycle and the file system. *)
Record cycle : Type := mkCycle {
  fetch_history : stamp -> option pydict;
  fetch_cards : list pyval -> option pydict;
  now : datetime;
  fs : disk
}.

(** One refresh cycle: the state it leaves and the exception it raised, if
    any. *)
Definition get_history_data (c : cycle) (st : state) : state * option exn :=
  let last_update_time := last_update st in
  let response := fetch_history c last_update_time in
  if truthy response then
    let st1 := set_last_update (StampText (now c)) st in
    let activity_data :=
      match response with
      | Some r => get_or "activity" (PList []) r
      | None => PList []
      end in
    match py_len activity_data with
    | Raise e => (st1, Some e)
    | Ok n =>
        if 0 <? n then
          match (l <- py_iter activity_data ;; comprehension always card_of l) with
          | Raise e => (st1, Some e)
          | Ok card_ids => (get_card_data (fetch_cards c card_ids) (fs c) st1, None)
          end
        else (st1, None)
    end
  else (st, None).

(** [check_for_activity_process]: one cycle after the other until one
    raises, which ends the task.  The states after each cycle. *)
Fixpoint check_for_activity_process (cs : list cycle) (st : state) : list state :=
  match cs with
  | [] => []
  | c :: cs' =>
      match get_history_data c st with
      | (st', None) => st' :: check_for_activity_process cs' st'
      | (st', Some _) => [st']
      end
  end.

(** ** Readers *)

Definition get_decks (st : state) : pyval := get_or "deck" (PList []) (data st).

Definition title_matches (deck_id : string) (deck_info : pyval) : result bool :=
  let f := lower deck_id in
  t <- py_get deck_info "title" (PStr "") ;;
  match t with
  | PStr s => Ok (contains f (lower s))
  | _ => Raise AttributeError
  end.

(** What [get_cards] computes, once outside the lock, from the two values
    it read under it. *)
Definition matching_cards (cards decks : pyval) (deck_id : string)
    : result (list pyval) :=
  match cards, decks with
  | PDict cs, PDict ds =>
      matching_decks <-
        comprehension (title_matches deck_id)
          (fun deck_info => py_get deck_info "id" PNone) (dict_values ds) ;;
      comprehension
        (fun card_info =>
           v <- py_get card_info "deckId" PNone ;; Ok (py_in v matching_decks))
        (fun card_info => Ok card_info) (dict_values cs)
  | _, _ => Ok []
  end.

Definition get_cards (st : state) (deck_id : string) : result (list pyval) :=
  let cards := get_or "card" (PDict []) (data st) in
  let decks := get_or "deck" (PDict []) (data st) in
  matching_cards cards decks deck_id.

Definition get_card_info (st : state) (card_id : string) : result pyval :=
  py_get (get_or "card" (PDict []) (data st)) card_id (PDict []).

(** ** Due dates *)

(** An element of [cards_with_due_dates]. *)
Record due_entry : Type := mkDue {
  card : pyval;
  matches : list string
}.

(** [card.get("content", "")] handed to [re]: anything but a string makes
    [re] raise. *)
Definition content_of (c : pyval) : result string :=
  v <- py_get c "content" (PStr "") ;;
  match v with
  | PStr s => Ok s
  | _ => Raise TypeError
  end.

(** [datetime.datetime.strptime(x["matches"][0], "[%d/%m/%y]")]. *)
Definition due_key (x : due_entry) : result datetime :=
  match matches x with
  | [] => Raise IndexError
  | m :: _ => strptime_due m
  end.

(** [list.sort(key=...)]: the keys are computed first, then the list is
    sorted stably by [<] on the keys. *)
Fixpoint insert_by_key (x : datetime * due_entry) (l : list (datetime * due_entry))
    : list (datetime * due_entry) :=
  match l with
  | [] => [x]
  | y :: l' =>
      if dt_ltb (fst y) (fst x) then y :: insert_by_key x l'
      else x :: y :: l'
  end.

Fixpoint sort_by_key (l : list (datetime * due_entry)) : list (datetime * due_entry) :=
  match l with
  | [] => []
  | x :: l' => insert_by_key x (sort_by_key l')
  end.

Definition sort_due (l : list due_entry) : result (list due_entry) :=
  keyed <- comprehension always (fun x => k <- due_key x ;; Ok (k, x)) l ;;
  Ok (map snd (sort_by_key keyed)).

(** The filter on the horizon; [datetime.datetime.now()] is read anew for
    every element, [clock k] being the [k]-th reading. *)
Fixpoint within_horizon (clock : nat -> datetime) (days_ahead : Z) (k : nat)
    (l : list due_entry) : result (list due_entry) :=
  match l with
  | [] => Ok []
  | x :: l' =>
      d <- due_key x ;;
      limit <- add_days (clock k) days_ahead ;;
      r <- within_horizon clock days_ahead (S k) l' ;;
      Ok (if dt_leb d limit then x :: r else r)
  end.

Definition py_values (v : pyval) : result (list pyval) :=
  match v with
  | PDict d => Ok (dict_values d)
  | _ => Raise AttributeError
  end.

Definition get_due_cards (clock : nat -> datetime) (st : state) (days_ahead : Z)
    : result (list due_entry) :=
  let cards := get_or "card" (PDict []) (data st) in
  vs <- py_values cards ;;
  cards_with_due_dates <-
    comprehension
      (fun c => s <- content_of c ;; Ok (re_search s))
      (fun c => s <- content_of c ;; Ok (mkDue c (re_findall s)))
      vs ;;
  sorted <- sort_due cards_with_due_dates ;;
  if 0 <? days_ahead then within_horizon clock days_ahead 0 sorted
  else Ok sorted.

End CodecksData.

(* ================================================================== *)
(** * A reader running against the merge *)
(* ================================================================== *)

(** The statements of a read accessor and of the merge of [get_card_data],
    interleaved one statement at a time under [data_lock].  The event loop
    switches tasks only where a task waits, so each of its schedules is one
    of the interleavings below.  What an accessor reads is a value of the
    top-level dict; the merge assigns top-level keys and no statement of
    the cache changes a nested dict in place, so a value once read stays
    what it was. *)
Module Isolation.

Import Py CodecksData.

Section Reader.

(** The accessor: the keys it reads under the lock, each with the default of
    its [get], and what it computes from the values after the lock is
    released. *)
Variable A : Type.
Variable keys : list (string * pyval).
Variable compute : list pyval -> A.

Inductive reader : Type :=
| RWait
| RRead (todo : list (string * pyval)) (got : list pyval)
| RCompute (got : list pyval)
| RDone (a : A).

Inductive writer : Type :=
| WWait
| WUpdate (todo : pydict)
| WDone.

(** [mem] is [self.data], [locked] tells whether [self.data_lock] is held. *)
Record sys : Type := mkSys {
  mem : pydict;
  locked : bool;
  rd : reader;
  wr : writer
}.

Definition read (d : pydict) (k : string * pyval) : pyval :=
  get_or (fst k) (snd k) d.

(** What the accessor returns when it runs alone on [d]. *)
Definition alone (d : pydict) : A := compute (map (read d) keys).

Inductive step (response : pydict) : sys -> sys -> Prop :=
| r_acquire : forall d w,
    step response (mkSys d false RWait w) (mkSys d true (RRead keys []) w)
| r_get : forall d k todo got w,
    step response (mkSys d true (RRead (k :: todo) got) w)
                  (mkSys d true (RRead todo (got ++ [read d k])) w)
| r_release : forall d got w,
    step response (mkSys d true (RRead [] got) w) (mkSys d false (RCompute got) w)
| r_return : forall d l got w,
    step response (mkSys d l (RCompute got) w) (mkSys d l (RDone (compute got)) w)
| w_acquire : forall d r,
    step response (mkSys d false r WWait) (mkSys d true r (WUpdate response))
| w_assign : forall d r k v todo,
    step response (mkSys d true r (WUpdate ((k, v) :: todo)))
                  (mkSys (dict_set k v d) true r (WUpdate todo))
| w_release : forall d r,
    step response (mkSys d true r (WUpdate [])) (mkSys d false r WDone).

Inductive reachable (response : pydict) (s0 : sys) : sys -> Prop :=
| reach_start : reachable response s0 s0
| reach_step : forall s s',
    reachable response s0 s -> step response s s' -> reachable response s0 s'.

Definition start (d : pydict) : sys := mkSys d false RWait WWait.

(** What holds of every state reached from [start d0]: the merge is as far
    as its remaining items say; the two tasks are never inside their blocks
    together; what the reader holds comes from the snapshot before the merge
    or from the snapshot after it. *)
Definition writer_inv (response d0 : pydict) (s : sys) : Prop :=
  match wr s with
  | WWait => mem s = d0
  | WUpdate todo =>
      locked s = true /\ dict_update (mem s) todo = dict_update d0 response
  | WDone => mem s = dict_update d0 response
  end.

Definition exclusive (s : sys) : Prop :=
  match rd s, wr s with
  | RRead _ _, WUpdate _ => False
  | _, _ => True
  end.

Definition reader_inv (response d0 : pydict) (s : sys) : Prop :=
  match rd s with
  | RWait => True
  | RRead todo got =>
      locked s = true
      /\ got ++ map (read (mem s)) todo = map (read (mem s)) keys
  | RCompute got =>
      (got = map (read d0) keys \/ got = map (read (dict_update d0 response)) keys)
      /\ (wr s = WWait -> got = map (read d0) keys)
  | RDone a =>
      (a = alone d0 \/ a = alone (dict_update d0 response))
      /\ (wr s = WWait -> a = alone d0)
  end.

Definition inv (response d0 : pydict) (s : sys) : Prop :=
  writer_inv response d0 s /\ exclusive s /\ reader_inv response d0 s.

End Reader.

Arguments RWait {A}.
Arguments RRead {A} todo got.
Arguments RCompute {A} got.
Arguments RDone {A} a.
Arguments mkSys {A} mem locked rd wr.
Arguments mem {A} s.
Arguments locked {A} s.
Arguments rd {A} s.
Arguments wr {A} s.
Arguments start {A} d.

(** [get_cards] as an accessor. *)
Definition get_cards_keys : list (string * pyval) :=
  [("card", PDict []); ("deck", PDict [])].

Definition get_cards_compute (deck_id : string) (got : list pyval)
    : result (list pyval) :=
  match got with
  | [cards; decks] => matching_cards cards decks deck_id
  | _ => Ok []
  end.

End Isolation.

(* ================================================================== *)
(** * The vocabulary of the specification *)
(* ================================================================== *)

Module Spec.

Import Dates Py CodecksData.

Definition is_dict (v : pyval) : bool :=
  match v with PDict _ => true | _ => false end.

(** A field of a deck or of a card, [None] when it is missing. *)
Definition field (k : string) (o : pyval) : pyval :=
  match o with
  | PDict d => get_or k PNone d
  | _ => PNone
  end.

Definition title_of (deck : pyval) : string :=
  match field "title" deck with
  | PStr s => s
  | _ => EmptyString
  end.

(** A deck of the data model is a mapping whose title, when there is one,
    is a string; a card is a mapping. *)
Definition deck_ok (deck : pyval) : Prop :=
  exists d, deck = PDict d /\
    (dict_get "title" d = None \/ exists s, dict_get "title" d = Some (PStr s)).

Definition card_ok (c : pyval) : Prop := exists d, c = PDict d.

(** The title of [deck] contains the filter, case ignored. *)
Definition title_contains (deck_filter : string) (deck : pyval) : bool :=
  contains (lower deck_filter) (lower (title_of deck)).

(** The card's deck id is the id of a deck whose title matches. *)
Definition in_matching_deck (deck_filter : string) (decks : list pyval)
    (c : pyval) : bool :=
  existsb (fun deck => title_contains deck_filter deck
                       && py_eq (field "deckId" c) (field "id" deck)) decks.


(** ** Due dates *)

(** The card has a due-date token; the entry [get_due_cards] makes of it. *)
Definition has_due (c : pyval) : bool :=
  match content_of c with
  | Ok s => re_search s
  | Raise _ => false
  end.

Definition entry_of (c : pyval) : due_entry :=
  mkDue c (match content_of c with Ok s => re_findall s | Raise _ => [] end).

Definition due_entries (cards : list pyval) : list due_entry :=
  map entry_of (filter has_due cards).

(** A card as [get_due_cards] expects it: a mapping whose content, if any,
    is a string, the first date token of which, if any, is a date of the
    calendar. *)
Definition content_ok (c : pyval) : Prop :=
  exists s, content_of c = Ok s /\
    match re_findall s with
    | [] => True
    | m :: _ => exists t, strptime_due m = Ok t
    end.

(** The date of the first token of an entry, and the order it gives. *)
Definition first_due (x : due_entry) (t : datetime) : Prop := due_key x = Ok t.

Definition by_first_due (a b : due_entry) : Prop :=
  exists ta tb, first_due a ta /\ first_due b tb /\ dt_le ta tb.

(** The earliest of the dates among all the tokens of an entry, and the
    order it gives. *)
Fixpoint earliest (ms : list string) : option datetime :=
  match ms with
  | [] => None
  | m :: ms' =>
      match strptime_due m, earliest ms' with
      | Ok t, Some u => Some (if dt_ltb u t then u else t)
      | Ok t, None => Some t
      | Raise _, r => r
      end
  end.

Definition by_earliest_due (a b : due_entry) : Prop :=
  exists ta tb, earliest (matches a) = Some ta
                /\ earliest (matches b) = Some tb /\ dt_le ta tb.

(** The order of the keyed list that [sort] works on. *)
Definition key_le (a b : datetime * due_entry) : Prop := dt_le (fst a) (fst b).

(** The keyed entry has the key [k]. *)
Definition has_key (k : datetime) (p : datetime * due_entry) : bool :=
  match dt_compare (fst p) k with
  | Eq => true
  | _ => false
  end.

(** The first date of the entry is on or before [limit]. *)
Definition due_by (limit : datetime) (x : due_entry) : bool :=
  match due_key x with
  | Ok t => dt_leb t limit
  | Raise _ => false
  end.

(** The horizon can be computed at every reading of the clock. *)
Definition horizon_ok (clock : nat -> datetime) (days_ahead : Z) : Prop :=
  days_ahead <= 0 \/ forall k, exists limit, add_days (clock k) days_ahead = Ok limit.

(** A reading of the clock shows a date of the calendar. *)
Definition calendar_date (t : datetime) : Prop :=
  1 <= month t <= 12 /\ 1 <= day t <= days_in_month (year t) (month t).

(** The entries with the rank of the reading each one is compared with:
    the filter reads the clock once per entry, in the order of the list. *)
Definition numbered (l : list due_entry) : list (nat * due_entry) :=
  combine (seq 0 (List.length l)) l.

(** The first date of the entry is on or before the horizon of the reading
    of its rank. *)
Definition due_at (clock : nat -> datetime) (days_ahead : Z)
    (p : nat * due_entry) : bool :=
  match add_days (clock (fst p)) days_ahead with
  | Ok limit => due_by limit (snd p)
  | Raise _ => false
  end.

(** The entries of [l] that are due, each at its own reading. *)
Definition due_at_reading (clock : nat -> datetime) (days_ahead : Z)
    (l : list due_entry) : list due_entry :=
  map snd (filter (due_at clock days_ahead) (numbered l)).

(** The mirror holds the snapshot together with its [last_update]. *)
Definition persisted (st : state) : Prop :=
  mirror st
  = Document (dict_set "last_update" (stamp_value (last_update st)) (data st)).

(** The clock readings of the cycles, taken to the second, never go back
    and none is before the [last_update] the cycles start from. *)
Definition clock_ok (st : state) (cs : list cycle) : Prop :=
  StronglySorted dt_le
    (stamp_time (last_update st) :: map (fun c => to_seconds (now c)) cs).

End Spec.

(* ================================================================== *)
(** * Concrete snapshots and payloads *)
(* ================================================================== *)

Module Examples.

Import Dates Py CodecksData.

Definition card1 : pyval :=
  PDict [("title", PStr "Fix bug"); ("content", PStr "due [01/02/24]");
         ("deckId", PStr "D1")].
Definition card2 : pyval :=
  PDict [("title", PStr "Write docs"); ("content", PStr "no date");
         ("deckId", PStr "D2")].
Definition card1' : pyval :=
  PDict [("title", PStr "Fix bug"); ("content", PStr "due [05/02/24]");
         ("deckId", PStr "D1")].

Definition deck1 : pyval := PDict [("id", PStr "D1"); ("title", PStr "Sprint")].
Definition deck2 : pyval := PDict [("id", PStr "D2"); ("title", PStr "Backlog")].

Definition snapshot : pydict :=
  [("deck", PDict [("D1", deck1); ("D2", deck2)]);
   ("card", PDict [("C1", card1); ("C2", card2)])].

(** What [fetch_cards(["C1"])] answers: the one card asked for. *)
Definition payload : pydict := [("card", PDict [("C1", card1')])].

Definition t0 : datetime := mkDT 2024 2 1 9 0 0 0.
Definition t1 : datetime := mkDT 2024 2 1 9 1 0 250.

(** The snapshot as [save_project] left it, in memory and on disk. *)
Definition stored : pydict :=
  snapshot ++ [("last_update", PStr "2024-02-01T09:00:00Z")].

Definition cached : state := mkState stored (StampText t0) (Document stored).

(** What [fetch_history] answers: one activity on C1, or none at all. *)
Definition history_one : pydict :=
  [("activity", PList [PDict [("card", PStr "C1")]])].
Definition history_none : pydict := [("activity", PList [])].

Definition cycle_cards_fail : cycle :=
  mkCycle (fun _ => Some history_one) (fun _ => None) t1 DiskOk.
Definition cycle_quiet : cycle :=
  mkCycle (fun _ => Some history_none) (fun _ => None) t1 DiskOk.
Definition cycle_merge : cycle :=
  mkCycle (fun _ => Some history_one) (fun _ => Some payload) t1 DiskOk.
Definition cycle_timeout : cycle :=
  mkCycle (fun _ => None) (fun _ => None) t1 DiskOk.

(** Due dates: a card whose first token is not its earliest date. *)
Definition card_moved : pyval :=
  PDict [("content", PStr "moved from [01/01/30] to [01/01/20]")].
Definition card_soon : pyval := PDict [("content", PStr "[01/01/25] renew")].
Definition card_later : pyval := PDict [("content", PStr "[05/01/25] renew")].
Definition card_never : pyval := PDict [("content", PStr "[31/02/25] renew")].

Definition due_moved : due_entry := mkDue card_moved ["[01/01/30]"; "[01/01/20]"].
Definition due_soon : due_entry := mkDue card_soon ["[01/01/25]"].
Definition due_later : due_entry := mkDue card_later ["[05/01/25]"].

Definition with_cards (cs : pydict) : state :=
  mkState [("card", PDict cs)] (StampText t0) Absent.

Definition noon (k : nat) : datetime := mkDT 2025 1 1 12 0 0 0.

(** Two cards of the same date, and a clock that passes midnight between
    its first reading and its second. *)
Definition card_later' : pyval := PDict [("content", PStr "[05/01/25] pay")].
Definition due_later' : due_entry := mkDue card_later' ["[05/01/25]"].

Definition midnight (k : nat) : datetime :=
  match k with
  | O => mkDT 2025 1 1 23 59 59 999990
  | S _ => mkDT 2025 1 2 0 0 0 10
  end.

End Examples.

(* ================================================================== *)
(** * codecks_data.py: loading the mirror at start-up *)
(* ================================================================== *)

Module Startup.

Import Dates Py CodecksData.

(** ** [strptime(s, "%Y-%m-%dT%H:%M:%SZ")]

    The pattern is
    [(\d\d\d\d)-(1[0-2]|0[1-9]|[1-9])-(3[0-1]|[1-2]\d|0[1-9]|[1-9]| [1-9])T(2[0-3]|[0-1]\d|\d):([0-5]\d|\d):(6[0-1]|[0-5]\d|\d)Z],
    compiled without regard to case (so [t] and [z] are accepted) and made
    to consume the whole string.  The [datetime] built from the fields
    refuses the year 0, a day the month does not have and a second above
    59. *)

Definition expect_letter (upper lower : ascii) (s : string) : option string :=
  match s with
  | String a rest =>
      if Ascii.eqb a upper || Ascii.eqb a lower then Some rest else None
  | EmptyString => None
  end.

Definition parse_year4 (s : string) : option (Z * string) :=
  match s with
  | String a (String b (String c (String d rest))) =>
      if is_digit a && is_digit b && is_digit c && is_digit d
      then Some (1000 * digit_val a + 100 * digit_val b
                 + 10 * digit_val c + digit_val d, rest)
      else None
  | _ => None
  end.

(** A field of one or two digits: the alternatives of two digits are those
    [two a b] accepts, the last alternative is a single digit. *)
Definition parse_field (two : ascii -> ascii -> bool) (s : string)
    : option (Z * string) :=
  match s with
  | String a (String b rest) =>
      if two a b then Some (10 * digit_val a + digit_val b, rest)
      else if is_digit a then Some (digit_val a, String b rest)
      else None
  | String a EmptyString =>
      if is_digit a then Some (digit_val a, EmptyString) else None
  | EmptyString => None
  end.

Definition parse_hour : string -> option (Z * string) :=
  parse_field (fun a b => (Ascii.eqb a "2" && in_range 48 51 b)
                          || (in_range 48 49 a && is_digit b)).

Definition parse_minute : string -> option (Z * string) :=
  parse_field (fun a b => in_range 48 53 a && is_digit b).

Definition parse_second : string -> option (Z * string) :=
  parse_field (fun a b => (Ascii.eqb a "6" && in_range 48 49 b)
                          || (in_range 48 53 a && is_digit b)).

Definition and_then {A B : Type} (o : option A) (k : A -> option B) : option B :=
  match o with
  | Some a => k a
  | None => None
  end.

Definition parse_iso (s : string) : option datetime :=
  and_then (parse_year4 s) (fun '(y, s) =>
  and_then (expect "-" s) (fun s =>
  and_then (parse_month s) (fun '(m, s) =>
  and_then (expect "-" s) (fun s =>
  and_then (parse_day s) (fun '(d, s) =>
  and_then (expect_letter "T" "t" s) (fun s =>
  and_then (parse_hour s) (fun '(h, s) =>
  and_then (expect ":" s) (fun s =>
  and_then (parse_minute s) (fun '(mi, s) =>
  and_then (expect ":" s) (fun s =>
  and_then (parse_second s) (fun '(sec, s) =>
  and_then (expect_letter "Z" "z" s) (fun s =>
  match s with
  | EmptyString => Some (mkDT y m d h mi sec 0)
  | _ => None
  end)))))))))))).

Definition strptime_iso (s : string) : result datetime :=
  match parse_iso s with
  | None => Raise ValueError
  | Some t =>
      if (1 <=? year t) && (day t <=? days_in_month (year t) (month t))
         && (second t <=? 59)
      then Ok t
      else Raise ValueError
  end.

(** ** [load_project]

    [can_open] tells whether [open(..., "r")] succeeds on a file that is
    there.  Whatever is raised inside the [try] is logged; the assignment
    of [self.data] done before it stays. *)
Definition load_project (now : datetime) (response : option pydict)
    (fs : disk) (can_open : bool) : coroutine := fun st =>
  st1 <- (match mirror st with
          | Absent => await (get_project_data now response fs) st
          | _ => Ok st
          end) ;;
  if can_open then
    match mirror st1 with
    | Document d =>
        let st2 := set_data d st1 in
        match dict_get "last_update" d with
        | Some (PStr text) =>
            match strptime_iso text with
            | Ok t => Ok (set_last_update (StampDatetime t) st2)
            | Raise _ => Ok st2
            end
        | _ => Ok st2
        end
    | _ => Ok st1
    end
  else Ok st1.

(** A new process: the state of [__init__] beside the file the last
    process left. *)
Definition fresh (f : file) : state := set_mirror f init.

(** A reading of the clock as [datetime.now] gives it. *)
Definition clock_reading (t : datetime) : Prop :=
  1000 <= year t <= 9999 /\ 1 <= month t <= 12
  /\ 1 <= day t <= days_in_month (year t) (month t)
  /\ 0 <= hour t <= 23 /\ 0 <= minute t <= 59 /\ 0 <= second t <= 59.

End Startup.

(* ================================================================== *)
(** * The account and the place of its mirror *)
(* ================================================================== *)

Module Account.

Import Py.

(** [CodecksAPI.__init__]: the two settings come from the environment;
    a setting that is missing or empty raises. *)
Record api : Type := mkApi {
  CODECKS_API_TOKEN : string;
  CODECKS_SUBDOMAIN : string
}.

Definition unset (v : option string) : bool :=
  match v with
  | None | Some EmptyString => true
  | Some _ => false
  end.

Definition CodecksAPI_init (token subdomain : option string) : result api :=
  if unset token then Raise ValueError
  else if unset subdomain then Raise ValueError
  else
    match token, subdomain with
    | Some t, Some s => Ok (mkApi t s)
    | _, _ => Raise ValueError
    end.

(** [os.path.join(a, b)] where paths are POSIX paths. *)
Fixpoint ends_with_sep (s : string) : bool :=
  match s with
  | EmptyString => false
  | String c EmptyString => Ascii.eqb c "/"
  | String _ s' => ends_with_sep s'
  end.

Definition path_join (a b : string) : string :=
  if starts_with "/" b then b
  else if (a =? "")%string || ends_with_sep a then (a ++ b)%string
  else (a ++ "/" ++ b)%string.

Definition CODECKS_DATA_DIR : string := "data".

(** [CodecksData.__init__]: where the mirror of the account is kept. *)
Definition data_dir (a : api) : string :=
  path_join CODECKS_DATA_DIR (CODECKS_SUBDOMAIN a).

Definition data_filepath (a : api) : string :=
  path_join (data_dir a) "codecks.json".

End Account.

(* ================================================================== *)
(** * telegram_helpers.py and bot.py: the commands *)
(* ================================================================== *)

Module Telegram.

Import Dates Py CodecksData.

(** What a handler does to the chat: the calls it makes on the update, in
    order (each call is taken to return). *)
Record button : Type := mkButton {
  text : pyval;
  callback_data : string
}.

Definition keyboard : Type := list (list button).

Inductive call : Type :=
| reply_text (reply : string) (markup : option keyboard) (parse_mode : option string)
| edit_message_text (reply : string) (markup : option keyboard)
    (parse_mode : option string)
| answer.

(** An update: the id of its user if it has one, its callback query if it
    has one (with the data of the button pressed, if any), and whether it
    has a message. *)
Record Update : Type := mkUpdate {
  effective_user : option Z;
  callback_query : option (option string);
  message : bool
}.

(** A handler returns the calls it made and its result or the exception
    that ended it. *)
Definition handler (A : Type) : Type := list call * result A.

Definition ret {A : Type} (a : A) : handler A := ([], Ok a).
Definition raise {A : Type} (e : exn) : handler A := ([], Raise e).
Definition emit (c : call) : handler unit := ([c], Ok tt).
Definition lift {A : Type} (r : result A) : handler A := ([], r).

Definition hbind {A B : Type} (m : handler A) (k : A -> handler B) : handler B :=
  match m with
  | (l, Ok a) => let '(l', r) := k a in (l ++ l', r)
  | (l, Raise e) => (l, Raise e)
  end.

Notation "x <~ m ;; k" := (hbind m (fun x => k))
  (at level 61, m at next level, right associativity).

(** [bot.py]: the loop of [Bot.start] runs while [stay_alive]; [shutdown]
    is an [async def] that clears it. *)
Record bot : Type := mkBot { stay_alive : bool }.

Definition shutdown (b : bot) : bot := mkBot false.

(** A call [f()] of an [async def] whose coroutine is dropped. *)
Definition never_awaited (body : bot -> bot) (b : bot) : bot := b.

(** [str.split()]: the words between runs of white space. *)
Definition is_space (c : ascii) : bool :=
  let n := nat_of_ascii c in
  ((9 <=? n) && (n <=? 13) || (28 <=? n) && (n <=? 32)
   || (n =? 133) || (n =? 160))%nat.

Fixpoint split_from (word : option string) (s : string) : list string :=
  match s with
  | EmptyString =>
      match word with
      | Some w => [w]
      | None => []
      end
  | String c s' =>
      if is_space c then
        match word with
        | Some w => w :: split_from None s'
        | None => split_from None s'
        end
      else
        split_from
          (Some (match word with
                 | Some w => w ++ String c EmptyString
                 | None => String c EmptyString
                 end)%string) s'
  end.

Definition split (s : string) : list string := split_from None s.

Section Handlers.

(** [str(v)] for a value that is not a string, and [int(s)]: the two
    built-ins are taken as they are. *)
Variable str_of : pyval -> string.
Variable int_of : string -> result Z.

(** The text the command [mew] answers with. *)
Variable mew_text : string.

Variable authorised_users : list Z.

Definition py_str (v : pyval) : string :=
  match v with
  | PStr s => s
  | _ => str_of v
  end.

Definition user_authorised (user_id : Z) : bool :=
  existsb (Z.eqb user_id) authorised_users.

Definition reply_to (update : Update) (reply : string)
    (markup : option keyboard) (parse_mode : option string) : handler unit :=
  match callback_query update with
  | Some _ => emit (edit_message_text reply markup parse_mode)
  | None =>
      if message update then emit (reply_text reply markup parse_mode)
      else raise AttributeError
  end.

Definition check_permissions (update : Update) : handler bool :=
  match effective_user update with
  | None => raise AttributeError
  | Some user_id =>
      if negb (user_authorised user_id) then
        _ <~ reply_to update "You are not authorised to use this bot." None None ;;
        ret false
      else ret true
  end.

(** The commands that only answer. *)
Definition say (reply : string) (update : Update) : handler unit :=
  ok <~ check_permissions update ;;
  if negb ok then ret tt
  else reply_to update reply None None.

Definition help : Update -> handler unit := say "I'm not very helpful yet, sorry :c".
Definition mew : Update -> handler unit := say mew_text.

Definition return_to_decks : list button :=
  [mkButton (PStr "[Return to decks]") "/decks"].

Definition card_button (deck : string) (card_info : pyval) : result (list button) :=
  title <- py_get card_info "title" (PStr "Err: No Title") ;;
  id <- py_get card_info "cardId" (PStr "") ;;
  Ok [mkButton (PStr (py_str title))
               ("/cardinfo " ++ py_str id ++ " " ++ deck)%string].

Definition list_cards (st : state) (update : Update) (args : option (list string))
    : handler unit :=
  ok <~ check_permissions update ;;
  if negb ok then ret tt
  else
    let deck := match args with
                | Some (a :: _) => a
                | _ => EmptyString
                end in
    cards <~ lift (get_cards st deck) ;;
    buttons <~ lift (comprehension always (card_button deck) cards) ;;
    reply_to update ("Cards for: " ++ deck)%string
      (Some (buttons ++ [return_to_decks])) None.

Definition deck_button (deck_info : pyval) : result (list button) :=
  title <- py_get deck_info "title" (PStr "No Title") ;;
  again <- py_get deck_info "title" (PStr "") ;;
  Ok [mkButton title ("/cards " ++ py_str again)%string].

Definition list_decks (st : state) (update : Update) : handler unit :=
  ok <~ check_permissions update ;;
  if negb ok then ret tt
  else
    let decks := get_decks st in
    buttons <~ lift (vs <- py_values decks ;; comprehension always deck_button vs) ;;
    reply_to update "Decks:" (Some buttons) None.

Definition start : state -> Update -> handler unit := list_decks.

Definition newline : string := String (ascii_of_nat 10) EmptyString.

Definition card_info (st : state) (update : Update) (args : option (list string))
    : handler unit :=
  ok <~ check_permissions update ;;
  if negb ok then ret tt
  else
    let cardID := match args with
                  | Some (a :: _) => Some a
                  | _ => None
                  end in
    let deck := match args with
                | Some (_ :: b :: _) => Some b
                | _ => None
                end in
    match cardID with
    | None | Some EmptyString => reply_to update "No card ID provided" None None
    | Some id =>
        card <~ lift (get_card_info st id) ;;
        title <~ lift (py_get card "title" (PStr "No Title")) ;;
        content <~ lift (py_get card "content" (PStr "No Content")) ;;
        let info := ("<b>" ++ py_str title ++ "</b>" ++ newline ++ newline
                     ++ "<pre>" ++ py_str content ++ "</pre>"
                     ++ newline ++ newline)%string in
        let buttons :=
          match deck with
          | None | Some EmptyString => [return_to_decks]
          | Some d =>
              [[mkButton (PStr ("[Return to " ++ d ++ "]")%string)
                         ("/cards " ++ d)%string]]
          end in
        reply_to update info (Some buttons) (Some "HTML")
    end.

(** [decks.get(key, {})] for a key that is a value of a card: a list or a
    dict cannot be hashed; the keys of the mapping are strings. *)
Definition lookup_or_empty (decks : pyval) (key : pyval) : result pyval :=
  match decks with
  | PDict d =>
      match key with
      | PStr k => Ok (get_or k (PDict []) d)
      | PList _ | PDict _ => Raise TypeError
      | _ => Ok (PDict [])
      end
  | _ => Raise AttributeError
  end.

Definition due_message (decks : pyval) (x : due_entry) : result string :=
  let card_info := card x in
  date <- match matches x with
          | [] => Raise IndexError
          | m :: _ => Ok m
          end ;;
  _ <- py_values decks ;;
  key <- py_get card_info "deckId" (PStr "") ;;
  found <- lookup_or_empty decks key ;;
  deck <- py_get found "title" (PStr "Unknown Deck") ;;
  title <- py_get card_info "title" (PStr "No Title") ;;
  content <- py_get card_info "content" (PStr "No Content") ;;
  Ok ("<b>" ++ py_str deck ++ ": " ++ py_str title ++ "</b>" ++ newline
      ++ "<pre>" ++ py_str content ++ "</pre>" ++ newline
      ++ "Due: " ++ date)%string.

Fixpoint send_each (decks : pyval) (update : Update) (cards : list due_entry)
    : handler unit :=
  match cards with
  | [] => ret tt
  | x :: cards' =>
      reply <~ lift (due_message decks x) ;;
      _ <~ reply_to update reply None (Some "HTML") ;;
      send_each decks update cards'
  end.

Definition upcoming_due_dates (clock : nat -> datetime) (st : state)
    (update : Update) (args : option (list string)) : handler unit :=
  ok <~ check_permissions update ;;
  if negb ok then ret tt
  else
    let wanted :=
      match args with
      | Some (a :: _) => int_of a
      | _ => Ok 30
      end in
    match wanted with
    | Raise ValueError => reply_to update "Invalid argument" None None
    | Raise e => raise e
    | Ok days_to_check =>
        cards <~ lift (get_due_cards clock st days_to_check) ;;
        let decks := get_decks st in
        send_each decks update cards
    end.

Definition handle_callback_query (st : state) (update : Update)
    (args : option (list string)) : handler unit :=
  ok <~ check_permissions update ;;
  if negb ok then ret tt
  else
    match callback_query update with
    | None => raise AttributeError
    | Some data =>
        _ <~ emit answer ;;
        match data with
        | None => raise AttributeError
        | Some command =>
            let args0 := match args with
                         | Some (a :: l) => a :: l
                         | _ => []
                         end in
            let args1 := Some (args0 ++ tl (split command)) in
            if starts_with "/cards" command then list_cards st update args1
            else if starts_with "/cardinfo" command then card_info st update args1
            else if starts_with "/decks" command then list_decks st update
            else ret tt
        end
    end.

(** [stop]: the answer goes to [update.message], and [shutdown_callback],
    which is [Bot.shutdown], is called without [await]. *)
Definition stop (update : Update) (b : bot) : handler unit * bot :=
  match check_permissions update with
  | (l, Ok true) =>
      if message update then
        ((l ++ [reply_text "Shutting down..." None None], Ok tt),
         never_awaited shutdown b)
      else ((l, Raise AttributeError), b)
  | (l, Ok false) => ((l, Ok tt), b)
  | (l, Raise e) => ((l, Raise e), b)
  end.

(** What an unauthorised user is told. *)
Definition refusal (update : Update) : call :=
  match callback_query update with
  | Some _ => edit_message_text "You are not authorised to use this bot." None None
  | None => reply_text "You are not authorised to use this bot." None None
  end.

(** [add_handlers]: the commands and their handlers. *)
Inductive command : Type :=
| cmd_help | cmd_mew | cmd_start | cmd_stop
| cmd_cards | cmd_cardinfo | cmd_decks | cmd_upcoming
| callback.

Definition on_update (clock : nat -> datetime) (st : state) (c : command)
    (update : Update) (args : option (list string)) (b : bot)
    : handler unit * bot :=
  match c with
  | cmd_help => (help update, b)
  | cmd_mew => (mew update, b)
  | cmd_start => (start st update, b)
  | cmd_stop => stop update b
  | cmd_cards => (list_cards st update args, b)
  | cmd_cardinfo => (card_info st update args, b)
  | cmd_decks => (list_decks st update, b)
  | cmd_upcoming => (upcoming_due_dates clock st update args, b)
  | callback => (handle_callback_query st update args, b)
  end.

End Handlers.

End Telegram.

(* ================================================================== *)
(** * More vocabulary *)
(* ================================================================== *)

Module Vocabulary.

Import Dates Py CodecksData.

(** The text [[ab/cd/ef]] and the number two digits write. *)
Definition date_token (a b c d e f : ascii) : string :=
  String "[" (String a (String b (String "/" (String c (String d
    (String "/" (String e (String f (String "]" EmptyString))))))))).

Definition number (a b : ascii) : Z := 10 * digit_val a + digit_val b.

(** The year a two-digit year stands for. *)
Definition century (y : Z) : Z := if y <=? 68 then 2000 + y else 1900 + y.

(** A word: a text that is not empty and has no white space. *)
Fixpoint no_space (s : string) : bool :=
  match s with
  | EmptyString => true
  | String c s' => negb (Telegram.is_space c) && no_space s'
  end.

Definition is_word (s : string) : bool := negb (s =? "")%string && no_space s.

(** The arguments a word or an empty text leaves after [split]. *)
Definition as_args (s : string) : list string :=
  if (s =? "")%string then [] else [s].

(** The calls of a handler that come after the query was answered. *)
Definition after_answer (h : Telegram.handler unit) : Telegram.handler unit :=
  (Telegram.answer :: fst h, snd h).

(** The date of an ordinal as the list of its fields, and the check that
    the date of the next ordinal is later. *)
Definition ymd_fields (p : Z * Z * Z) : list Z :=
  let '(y, m, d) := p in [y; m; d].

Definition next_day_later (o : Z) : bool :=
  match lex_compare (ymd_fields (ord2ymd o)) (ymd_fields (ord2ymd (o + 1))) with
  | Lt => true
  | _ => false
  end.

(** The check on [count] ordinals in a row, from [o] on. *)
Fixpoint days_in_a_row (count : nat) (o : Z) : bool :=
  match count with
  | O => true
  | S count' => next_day_later o && days_in_a_row count' (o + 1)
  end.

Definition later_year (q : Z) (p : Z * Z * Z) : Z * Z * Z :=
  let '(y, m, d) := p in (y + 400 * q, m, d).

(** Day [d] of month [m] of year [y] is a date of the calendar. *)
Definition valid_date (y m d : Z) : bool :=
  (1 <=? m) && (m <=? 12) && (1 <=? d) && (d <=? days_in_month y m).

End Vocabulary.

(* ================================================================== *)
(** * Properties *)
(* ================================================================== *)

Import Dates Py CodecksAPI CodecksData.

(** ** Dictionaries *)

Section DictFacts.

Lemma dict_get_set (k k' : string) (v : pyval) (d : pydict) :
  dict_get k' (dict_set k v d) = if String.eqb k k' then Some v else dict_get k' d.
Proof.
  induction d as [|[k0 v0] d IH]; simpl.
  - destruct (String.eqb k k'); reflexivity.
  - destruct (String.eqb k0 k) eqn:E0; simpl.
    + apply String.eqb_eq in E0; subst k0.
      destruct (String.eqb k k'); reflexivity.
    + rewrite IH.
      destruct (String.eqb k0 k') eqn:E1; [|reflexivity].
      apply String.eqb_eq in E1; subst k0.
      rewrite String.eqb_sym, E0. reflexivity.
Qed.

Lemma dict_get_in_keys (k : string) (d : pydict) :
  dict_get k d <> None <-> In k (dict_keys d).
Proof.
  induction d as [|[k0 v0] d IH]; simpl.
  - split; [congruence | tauto].
  - destruct (String.eqb k0 k) eqn:E.
    + apply String.eqb_eq in E. split; [auto | discriminate].
    + apply String.eqb_neq in E. rewrite IH. split; [auto | intros [H|H]; [contradiction | exact H]].
Qed.

Lemma dict_keys_set_present (k : string) (v : pyval) (d : pydict) :
  In k (dict_keys d) -> dict_keys (dict_set k v d) = dict_keys d.
Proof.
  induction d as [|[k0 v0] d IH]; simpl; [tauto|].
  intros H. destruct (String.eqb k0 k) eqn:E; simpl.
  - apply String.eqb_eq in E. now subst.
  - apply String.eqb_neq in E. destruct H as [H|H]; [contradiction|].
    now rewrite IH.
Qed.

Lemma dict_keys_set_absent (k : string) (v : pyval) (d : pydict) :
  ~ In k (dict_keys d) -> dict_keys (dict_set k v d) = dict_keys d ++ [k].
Proof.
  induction d as [|[k0 v0] d IH]; simpl; [reflexivity|].
  intros H. destruct (String.eqb k0 k) eqn:E; simpl.
  - apply String.eqb_eq in E. tauto.
  - rewrite IH; [reflexivity | tauto].
Qed.

Lemma dict_keys_set_incl (k : string) (v : pyval) (d : pydict) (x : string) :
  In x (dict_keys (dict_set k v d)) <-> x = k \/ In x (dict_keys d).
Proof.
  destruct (in_dec string_dec k (dict_keys d)) as [H|H].
  - rewrite dict_keys_set_present by exact H.
    split; [auto | intros [->|H']; auto].
  - rewrite dict_keys_set_absent by exact H.
    rewrite in_app_iff. simpl. split.
    + intros [H'|[H'|[]]]; auto.
    + intros [->|H']; auto.
Qed.

Lemma dict_wf_set (k : string) (v : pyval) (d : pydict) :
  dict_wf d -> dict_wf (dict_set k v d).
Proof.
  unfold dict_wf. intros H.
  destruct (in_dec string_dec k (dict_keys d)) as [Hin|Hin].
  - now rewrite dict_keys_set_present.
  - rewrite dict_keys_set_absent by exact Hin.
    apply NoDup_app; [exact H | repeat constructor; simpl; tauto |].
    intros x Hx [<-|[]]. contradiction.
Qed.

Lemma dict_wf_update (p d : pydict) :
  dict_wf d -> dict_wf (dict_update d p).
Proof.
  unfold dict_update. revert d.
  induction p as [|[k v] p IH]; simpl; intros d H; [exact H|].
  apply IH, dict_wf_set, H.
Qed.

Lemma dict_get_update (k : string) (p d : pydict) :
  dict_get k (dict_update d p) =
  match last_value k p with
  | Some v => Some v
  | None => dict_get k d
  end.
Proof.
  unfold dict_update. revert d.
  induction p as [|[k0 v0] p IH]; simpl; intros d; [reflexivity|].
  rewrite IH. destruct (last_value k p); [reflexivity|].
  rewrite dict_get_set. destruct (String.eqb k0 k); reflexivity.
Qed.

Lemma last_value_none (k : string) (p : pydict) :
  last_value k p = None <-> ~ In k (dict_keys p).
Proof.
  induction p as [|[k0 v0] p IH]; simpl; [tauto|].
  destruct (last_value k p).
  - split; [discriminate|]. intros H.
    assert (H' : ~ In k (dict_keys p)) by tauto.
    apply IH in H'. discriminate.
  - destruct (String.eqb k0 k) eqn:E.
    + apply String.eqb_eq in E. split; [discriminate | tauto].
    + apply String.eqb_neq in E. split; [|reflexivity].
      intros _ [H|H]; [contradiction|]. now apply IH.
Qed.

End DictFacts.

Section UpdateFacts.

Lemma dict_keys_update (p d : pydict) (x : string) :
  In x (dict_keys (dict_update d p)) <-> In x (dict_keys d) \/ In x (dict_keys p).
Proof.
  unfold dict_update. revert d.
  induction p as [|[k v] p IH]; simpl; intros d; [tauto|].
  rewrite IH, dict_keys_set_incl. intuition congruence.
Qed.

Lemma dict_keys_update_present (p d : pydict) :
  incl (dict_keys p) (dict_keys d) ->
  dict_keys (dict_update d p) = dict_keys d.
Proof.
  unfold dict_update. revert d.
  induction p as [|[k v] p IH]; simpl; intros d H; [reflexivity|].
  assert (Hk : In k (dict_keys d)) by (apply H; now left).
  rewrite IH; rewrite dict_keys_set_present by exact Hk; [reflexivity|].
  intros x Hx. apply H. now right.
Qed.

(** Two dicts with the same keys in the same order and the same value under
    each key are the same dict. *)
Lemma dict_ext (d1 d2 : pydict) :
  dict_wf d1 -> dict_keys d1 = dict_keys d2 ->
  (forall k, dict_get k d1 = dict_get k d2) -> d1 = d2.
Proof.
  unfold dict_wf. revert d2.
  induction d1 as [|[k1 v1] d1 IH]; intros [|[k2 v2] d2]; simpl;
    try discriminate; [reflexivity|].
  intros Hwf Hk Hget. injection Hk as <- Hk.
  inversion Hwf as [|? ? Hnotin Hwf']; subst.
  pose proof (Hget k1) as Hh. rewrite String.eqb_refl in Hh.
  injection Hh as <-. f_equal.
  apply IH; [exact Hwf' | exact Hk |].
  intros k. specialize (Hget k).
  destruct (String.eqb k1 k) eqn:E; [|exact Hget].
  apply String.eqb_eq in E; subst k.
  assert (H1 : dict_get k1 d1 = None).
  { destruct (dict_get k1 d1) eqn:G; [|reflexivity].
    exfalso. apply Hnotin, dict_get_in_keys. congruence. }
  assert (H2 : dict_get k1 d2 = None).
  { destruct (dict_get k1 d2) eqn:G; [|reflexivity].
    exfalso. apply Hnotin. rewrite Hk. apply dict_get_in_keys. congruence. }
  congruence.
Qed.

Lemma dict_update_idempotent (d p : pydict) :
  dict_wf d -> dict_update (dict_update d p) p = dict_update d p.
Proof.
  intros Hwf. apply dict_ext.
  - now apply dict_wf_update, dict_wf_update.
  - apply dict_keys_update_present.
    intros x Hx. apply dict_keys_update. now right.
  - intros k. rewrite (dict_get_update k p (dict_update d p)).
    rewrite (dict_get_update k p d).
    destruct (last_value k p); reflexivity.
Qed.

(** A top-level key the payload does not name keeps its value. *)
Lemma dict_update_frame (d p : pydict) (k : string) :
  ~ In k (dict_keys p) -> dict_get k (dict_update d p) = dict_get k d.
Proof.
  intros H. rewrite dict_get_update.
  apply last_value_none in H. now rewrite H.
Qed.

End UpdateFacts.

(** ** The merge of [get_card_data] *)

(** C6: merging a payload into a snapshot a second time changes nothing:
    [get_card_data] run twice on the same response leaves the state that one
    run leaves (same entries, same order, same [last_update], same mirror). *)
Theorem merge_idempotent (st : state) (response : option pydict) (fs : disk) :
  dict_wf (data st) ->
  get_card_data response fs (get_card_data response fs st)
  = get_card_data response fs st.
Proof.
  intros Hwf. unfold get_card_data.
  destruct (truthy response) eqn:T; [|reflexivity].
  destruct response as [r|]; [|reflexivity].
  unfold not_awaited, set_data; simpl.
  now rewrite dict_update_idempotent.
Qed.

Lemma merge_idempotent_witness :
  dict_wf (data Examples.cached) /\
  get_card_data (Some Examples.payload) DiskOk
    (get_card_data (Some Examples.payload) DiskOk Examples.cached)
  = get_card_data (Some Examples.payload) DiskOk Examples.cached.
Proof.
  assert (H : dict_wf (data Examples.cached)).
  { unfold dict_wf; simpl. repeat constructor; simpl; intuition discriminate. }
  split; [exact H | exact (merge_idempotent Examples.cached (Some Examples.payload) DiskOk H)].
Defined.

(** C2, at a failing input: the snapshot holds the cards C1 and C2 and
    [fetch_cards] answers with C1 alone.  After the merge C1 has its new
    content, and C2, which the payload does not name, is gone: the update
    replaced the whole value under ["card"]. *)
Theorem merge_drops_unfetched_card :
  get_card_info Examples.cached "C2" = Ok Examples.card2
  /\ get_card_info
       (get_card_data (Some Examples.payload) DiskOk Examples.cached) "C1"
     = Ok Examples.card1'
  /\ get_card_info
       (get_card_data (Some Examples.payload) DiskOk Examples.cached) "C2"
     = Ok (PDict []).
Proof. repeat split; reflexivity. Qed.

(** ** Comprehensions *)

Section Comprehensions.

Context {A B : Type}.

Lemma comprehension_total (cond : A -> result bool) (elt : A -> result B)
    (c : A -> bool) (e : A -> B) (l : list A) :
  Forall (fun a => cond a = Ok (c a) /\ (c a = true -> elt a = Ok (e a))) l ->
  comprehension cond elt l = Ok (map e (filter c l)).
Proof.
  induction 1 as [|a l [Hc He] _ IH]; simpl; [reflexivity|].
  rewrite Hc; simpl. destruct (c a); simpl.
  - rewrite He by reflexivity. simpl. now rewrite IH.
  - exact IH.
Qed.

End Comprehensions.

(** ** Substrings *)

Section Strings.

Lemma starts_with_spec (p s : string) :
  starts_with p s = true <-> exists r, s = (p ++ r)%string.
Proof.
  revert s. induction p as [|a p IH]; intros s; simpl.
  - split; [intros _; now exists s | reflexivity].
  - destruct s as [|b s].
    + split; [discriminate | intros [r H]; discriminate].
    + rewrite andb_true_iff, IH, Ascii.eqb_eq. split.
      * intros [-> [r ->]]. now exists r.
      * intros [r H]. injection H as -> ->. split; [reflexivity | now exists r].
Qed.

(** [contains needle hay] holds exactly when [hay] is some prefix, then
    [needle], then some suffix. *)
Lemma contains_spec (needle hay : string) :
  contains needle hay = true <->
  exists p r, hay = (p ++ needle ++ r)%string.
Proof.
  induction hay as [|b hay IH].
  - simpl. rewrite orb_false_r, starts_with_spec. split.
    + intros [r H]. now exists EmptyString, r.
    + intros [[|a p] [r H]]; [now exists r | discriminate].
  - cbn [contains]. rewrite orb_true_iff, starts_with_spec, IH. split.
    + intros [[r H]|[p [r H]]].
      * now exists EmptyString, r.
      * exists (String b p), r. simpl. now rewrite H.
    + intros [[|a p] [r H]].
      * left. now exists r.
      * right. simpl in H. injection H as -> ->. now exists p, r.
Qed.

Lemma contains_empty (hay : string) : contains EmptyString hay = true.
Proof. destruct hay; reflexivity. Qed.

End Strings.

(** ** [get_cards] *)

Section GetCards.

Import Spec.

Lemma title_matches_total (deck_id : string) (deck : pyval) :
  deck_ok deck -> title_matches deck_id deck = Ok (title_contains deck_id deck).
Proof.
  intros [d [-> [H|[s H]]]];
    unfold title_matches, title_contains, title_of, field; simpl;
    unfold get_or; rewrite H; reflexivity.
Qed.

Lemma existsb_map_filter {X Y : Type} (p : Y -> bool) (g : X -> Y)
    (c : X -> bool) (l : list X) :
  existsb p (map g (filter c l)) = existsb (fun x => c x && p (g x)) l.
Proof.
  induction l as [|x l IH]; simpl; [reflexivity|].
  destruct (c x); simpl; now rewrite IH.
Qed.

Lemma matching_cards_total (cs ds : pydict) (deck_id : string) :
  Forall deck_ok (dict_values ds) -> Forall card_ok (dict_values cs) ->
  matching_cards (PDict cs) (PDict ds) deck_id
  = Ok (filter (in_matching_deck deck_id (dict_values ds)) (dict_values cs)).
Proof.
  intros Hd Hc. unfold matching_cards.
  rewrite (comprehension_total _ _ (title_contains deck_id) (field "id")).
  - simpl.
    rewrite (comprehension_total _ _
               (in_matching_deck deck_id (dict_values ds)) (fun c => c)).
    + now rewrite map_id.
    + eapply Forall_impl; [|exact Hc].
      intros c [d ->]. split; [|reflexivity]. simpl.
      unfold py_in, in_matching_deck. now rewrite existsb_map_filter.
  - eapply Forall_impl; [|exact Hd].
    intros deck Hok. split; [now apply title_matches_total|].
    destruct Hok as [d [-> _]]. reflexivity.
Qed.





(** C10: when the value under ["card"] or under ["deck"] is not a mapping,
    [get_cards] returns the empty list, whatever the filter. *)
Theorem get_cards_not_a_mapping (st : state) (deck_filter : string) (v : pyval) :
  dict_get "card" (data st) = Some v \/ dict_get "deck" (data st) = Some v ->
  is_dict v = false ->
  get_cards st deck_filter = Ok [].
Proof.
  intros [H|H] Hv; unfold get_cards, matching_cards, get_or; rewrite H.
  - destruct v; try reflexivity. discriminate.
  - destruct v; try discriminate;
      destruct (match dict_get "card" (data st) with
                | Some c => c | None => PDict [] end); reflexivity.
Qed.

Lemma get_cards_not_a_mapping_witness :
  get_cards (mkState [("card", PList []); ("deck", PDict [])]
                     (StampText Examples.t0) Absent) "sprint" = Ok [].
Proof.
  apply (get_cards_not_a_mapping _ "sprint" (PList []));
    [left; reflexivity | reflexivity].
Defined.

End GetCards.

(** ** The remote client *)

Section RemoteClient.

Lemma caught_by_a_clause (e : exn) :
  isinstance_Exception e = true ->
  (if isinstance_Timeout e then Ok PNone
   else if isinstance_RequestException e then Ok PNone
   else if isinstance_Exception e then Ok PNone
   else Raise e) = Ok PNone.
Proof. intros H. rewrite H. destruct e; reflexivity. Qed.

(** C8: with status 200 the client returns the decoded body; with any other
    status it returns [None]; when the request raises a timeout, a
    connection error or any other [Exception] it returns [None]; and no
    [Exception] ever leaves [make_request] (what it lets through derives
    from [BaseException] only). *)
Theorem make_request_outcomes :
  (forall r j, status_code r = 200 -> json r = Ok j ->
               make_request (Ok r) = Ok j)
  /\ (forall r, status_code r <> 200 -> make_request (Ok r) = Ok PNone)
  /\ (forall e, isinstance_Exception e = true ->
                make_request (Raise e) = Ok PNone)
  /\ (forall sent e, make_request sent = Raise e ->
                     isinstance_Exception e = false).
Proof.
  repeat split.
  - intros r j Hs Hj. unfold make_request, handle_response; simpl.
    now rewrite Hs, Hj.
  - intros r Hs. unfold make_request, handle_response; simpl.
    apply Z.eqb_neq in Hs. now rewrite Hs.
  - intros e He. unfold make_request; simpl. now apply caught_by_a_clause.
  - intros sent e. unfold make_request.
    destruct (response <- sent;; handle_response response) as [v|e'];
      [discriminate|].
    cbv beta iota. pose proof (caught_by_a_clause e') as Hc.
    destruct (isinstance_Exception e') eqn:He'.
    + rewrite (Hc eq_refl). discriminate.
    + destruct e'; try discriminate; simpl; intros H; injection H as <-;
        reflexivity.
Qed.

Lemma make_request_outcomes_witness :
  make_request (Ok (mkResponse 200 (Ok (PDict [])))) = Ok (PDict [])
  /\ make_request (Ok (mkResponse 500 (Ok (PDict [])))) = Ok PNone
  /\ make_request (Raise Timeout) = Ok PNone
  /\ make_request (Raise ConnectionError) = Ok PNone.
Proof.
  destruct make_request_outcomes as [H200 [Hother [Hexn _]]].
  split; [|split; [|split]].
  - apply (H200 (mkResponse 200 (Ok (PDict []))) (PDict [])); reflexivity.
  - apply (Hother (mkResponse 500 (Ok (PDict [])))). simpl. lia.
  - apply (Hexn Timeout). reflexivity.
  - apply (Hexn ConnectionError). reflexivity.
Defined.

(** A body that is not JSON makes [response.json()] raise inside the [try]:
    the client returns [None] then too. *)
Lemma make_request_undecodable (r : Response) (e : exn) :
  status_code r = 200 -> json r = Raise e -> isinstance_Exception e = true ->
  make_request (Ok r) = Ok PNone.
Proof.
  intros Hs Hj He. unfold make_request, handle_response; simpl.
  rewrite Hs, Hj; simpl. now apply caught_by_a_clause.
Qed.

End RemoteClient.

(** ** The order on datetimes *)

Section DatetimeOrder.

Lemma lex_compare_refl (a : list Z) : lex_compare a a = Eq.
Proof.
  induction a as [|x a IH]; simpl; [reflexivity|].
  now rewrite Z.compare_refl.
Qed.

Lemma lex_compare_le_trans (a b c : list Z) :
  lex_compare a b <> Gt -> lex_compare b c <> Gt -> lex_compare a c <> Gt.
Proof.
  revert b c. induction a as [|x a IH]; intros [|y b] [|z c]; simpl;
    try congruence.
  destruct (Z.compare_spec x y), (Z.compare_spec y z), (Z.compare_spec x z);
    try congruence; try lia.
  apply IH.
Qed.

Lemma lex_compare_total (a b : list Z) :
  lex_compare a b = Gt -> lex_compare b a = Lt.
Proof.
  revert b. induction a as [|x a IH]; intros [|y b]; simpl;
    try congruence.
  destruct (Z.compare_spec x y), (Z.compare_spec y x);
    try congruence; try lia.
  apply IH.
Qed.

Lemma dt_le_refl (a : datetime) : dt_le a a.
Proof. unfold dt_le, dt_leb, dt_compare. now rewrite lex_compare_refl. Qed.

Lemma dt_le_trans (a b c : datetime) : dt_le a b -> dt_le b c -> dt_le a c.
Proof.
  unfold dt_le, dt_leb, dt_compare. intros H1 H2.
  pose proof (lex_compare_le_trans (dt_fields a) (dt_fields b) (dt_fields c)) as T.
  destruct (lex_compare (dt_fields a) (dt_fields b));
    destruct (lex_compare (dt_fields b) (dt_fields c));
    destruct (lex_compare (dt_fields a) (dt_fields c));
    try reflexivity; try discriminate; exfalso; apply T; congruence.
Qed.

(** [a < b] fails exactly when [b <= a]. *)
Lemma dt_ltb_false (a b : datetime) : dt_ltb a b = false -> dt_le b a.
Proof.
  unfold dt_le, dt_leb, dt_ltb, dt_compare. intros H.
  destruct (lex_compare (dt_fields b) (dt_fields a)) eqn:E; try reflexivity.
  apply lex_compare_total in E. rewrite E in H. discriminate.
Qed.

Lemma dt_ltb_le (a b : datetime) : dt_ltb a b = true -> dt_le a b.
Proof.
  unfold dt_le, dt_leb, dt_ltb. destruct (dt_compare a b); congruence.
Qed.

End DatetimeOrder.

(** ** Refresh cycles *)

Section Refresh.

Import Spec.

(** A cycle whose [fetch_history] brings nothing leaves the state as it
    was. *)
Lemma history_failure_keeps_state (c : cycle) (st : state) :
  truthy (fetch_history c (last_update st)) = false ->
  get_history_data c st = (st, None).
Proof. intros H. unfold get_history_data. now rewrite H. Qed.

Lemma get_card_data_keeps_last_update (r : option pydict) (d : disk) (st : state) :
  last_update (get_card_data r d st) = last_update st.
Proof.
  unfold get_card_data. destruct (truthy r); [|reflexivity].
  destruct r; reflexivity.
Qed.

Lemma get_card_data_keeps_mirror (r : option pydict) (d : disk) (st : state) :
  mirror (get_card_data r d st) = mirror st.
Proof.
  unfold get_card_data. destruct (truthy r); [|reflexivity].
  destruct r; reflexivity.
Qed.

Lemma get_card_data_failure (r : option pydict) (d : disk) (st : state) :
  truthy r = false -> get_card_data r d st = st.
Proof. intros H. unfold get_card_data. now rewrite H. Qed.

(** Once [fetch_history] has answered, [last_update] is the reading of the
    clock, however the rest of the cycle goes. *)
Lemma history_success_advances (c : cycle) (st : state) :
  truthy (fetch_history c (last_update st)) = true ->
  last_update (fst (get_history_data c st)) = StampText (now c).
Proof.
  intros H. unfold get_history_data. rewrite H.
  destruct (py_len _) as [n|e]; [|reflexivity].
  destruct (0 <? n); [|reflexivity].
  destruct (l <- py_iter _ ;; comprehension always card_of l); [|reflexivity].
  simpl. now rewrite get_card_data_keeps_last_update.
Qed.

(** No cycle writes the mirror. *)
Lemma cycle_keeps_mirror (c : cycle) (st : state) :
  mirror (fst (get_history_data c st)) = mirror st.
Proof.
  unfold get_history_data.
  destruct (truthy _); [|reflexivity].
  destruct (py_len _) as [n|e]; [|reflexivity].
  destruct (0 <? n); [|reflexivity].
  destruct (l <- py_iter _ ;; comprehension always card_of l); [|reflexivity].
  simpl. now rewrite get_card_data_keeps_mirror.
Qed.

Lemma cycle_last_update (c : cycle) (st : state) :
  last_update (fst (get_history_data c st)) = last_update st
  \/ last_update (fst (get_history_data c st)) = StampText (now c).
Proof.
  destruct (truthy (fetch_history c (last_update st))) eqn:H.
  - right. now apply history_success_advances.
  - left. now rewrite history_failure_keeps_state.
Qed.

Lemma cycles_monotone (cs : list cycle) (st : state) :
  clock_ok st cs ->
  StronglySorted dt_le
    (map (fun s => stamp_time (last_update s))
         (st :: check_for_activity_process cs st)).
Proof.
  unfold clock_ok. revert st.
  induction cs as [|c cs IH]; intros st H; simpl.
  - constructor; constructor.
  - inversion H as [|? ? Hrest Hall]; subst.
    inversion Hrest as [|? ? Hrest' Hall']; subst.
    inversion Hall as [|? ? Hfirst Hall'']; subst.
    assert (Hnext : clock_ok (fst (get_history_data c st)) cs).
    { unfold clock_ok.
      destruct (cycle_last_update c st) as [E|E]; rewrite E; simpl.
      - now constructor.
      - now constructor. }
    assert (Hle : forall s,
               In s (fst (get_history_data c st)
                     :: check_for_activity_process cs (fst (get_history_data c st))) ->
               dt_le (stamp_time (last_update st)) (stamp_time (last_update s))).
    { specialize (IH _ Hnext). simpl in IH.
      inversion IH as [|? ? _ Hall3]; subst.
      assert (H0 : dt_le (stamp_time (last_update st))
                     (stamp_time (last_update (fst (get_history_data c st))))).
      { destruct (cycle_last_update c st) as [E|E]; rewrite E; simpl;
          [apply dt_le_refl | exact Hfirst]. }
      intros s [<-|Hs]; [exact H0|].
      eapply dt_le_trans; [exact H0|].
      rewrite Forall_forall in Hall3. apply Hall3.
      apply in_map_iff. now exists s. }
    specialize (IH _ Hnext).
    destruct (get_history_data c st) as [st' [e|]] eqn:G; simpl in *.
    + constructor; [constructor; constructor|].
      constructor; [|constructor]. apply Hle. now left.
    + constructor; [exact IH|].
      apply Forall_forall. intros t Ht.
      change (In t (map (fun s => stamp_time (last_update s))
                        (st' :: check_for_activity_process cs st'))) in Ht.
      apply in_map_iff in Ht. destruct Ht as [s [<- Hs]].
      apply Hle. exact Hs.
Qed.

(** C1, as the code has it: while the clock does not go back, [last_update]
    never decreases over a run of refresh cycles; a cycle whose
    [fetch_history] fails leaves the whole state as it was; a cycle whose
    [fetch_history] succeeds sets [last_update] to its clock reading at
    once, so that when the [fetch_cards] that follows fails the snapshot and
    the mirror are as before and [last_update] has advanced all the same. *)
Theorem last_update_advances_on_history (cs : list cycle) (st : state) :
  clock_ok st cs ->
  StronglySorted dt_le
    (map (fun s => stamp_time (last_update s))
         (st :: check_for_activity_process cs st))
  /\ (forall c s,
        truthy (fetch_history c (last_update s)) = false ->
        get_history_data c s = (s, None))
  /\ (forall c s,
        truthy (fetch_history c (last_update s)) = true ->
        last_update (fst (get_history_data c s)) = StampText (now c))
  /\ (forall c s,
        truthy (fetch_history c (last_update s)) = true ->
        (forall ids, truthy (fetch_cards c ids) = false) ->
        data (fst (get_history_data c s)) = data s
        /\ mirror (fst (get_history_data c s)) = mirror s
        /\ last_update (fst (get_history_data c s)) = StampText (now c)).
Proof.
  intros Hclock. split; [now apply cycles_monotone|].
  split; [exact history_failure_keeps_state|].
  split; [exact history_success_advances|].
  intros c s Hh Hc. split; [|split].
  - unfold get_history_data. rewrite Hh.
    destruct (py_len _) as [n|e]; [|reflexivity].
    destruct (0 <? n); [|reflexivity].
    destruct (l <- py_iter _ ;; comprehension always card_of l) as [ids|e];
      [|reflexivity].
    simpl. now rewrite get_card_data_failure by apply Hc.
  - apply cycle_keeps_mirror.
  - now apply history_success_advances.
Qed.

Lemma last_update_advances_on_history_witness :
  StronglySorted dt_le
    (map (fun s => stamp_time (last_update s))
         (Examples.cached ::
          check_for_activity_process
            [Examples.cycle_timeout; Examples.cycle_cards_fail] Examples.cached)).
Proof.
  refine (proj1 (last_update_advances_on_history
                   [Examples.cycle_timeout; Examples.cycle_cards_fail]
                   Examples.cached _)).
  unfold clock_ok; simpl.
  repeat (constructor; try reflexivity).
Defined.

(** C1 fails as stated: [fetch_history] reports an activity on C1,
    [fetch_cards] fails, and [last_update] has moved from 09:00:00 to the
    09:01:00 of the cycle. *)
Lemma fetch_cards_failure_advances_last_update :
  truthy (fetch_history Examples.cycle_cards_fail (last_update Examples.cached))
  = true
  /\ truthy (fetch_cards Examples.cycle_cards_fail [PStr "C1"]) = false
  /\ get_history_data Examples.cycle_cards_fail Examples.cached
     = (set_last_update (StampText Examples.t1) Examples.cached, None)
  /\ last_update (fst (get_history_data Examples.cycle_cards_fail Examples.cached))
     <> last_update Examples.cached.
Proof. repeat split. discriminate. Qed.

(** *** The mirror *)

Lemma dict_set_twice (k : string) (v : pyval) (d : pydict) :
  dict_set k v (dict_set k v d) = dict_set k v d.
Proof.
  induction d as [|[k0 v0] d IH]; simpl.
  - now rewrite String.eqb_refl.
  - destruct (String.eqb k0 k) eqn:E; simpl.
    + now rewrite String.eqb_refl.
    + now rewrite E, IH.
Qed.

Lemma serializable_dict (d : pydict) :
  serializable (PDict d) = forallb (fun kv => serializable (snd kv)) d.
Proof.
  induction d as [|[k v] d IH]; [reflexivity|].
  simpl in *. now rewrite IH.
Qed.

Lemma serializable_set (k : string) (v : pyval) (d : pydict) :
  serializable v = true -> serializable (PDict d) = true ->
  serializable (PDict (dict_set k v d)) = true.
Proof.
  rewrite !serializable_dict. intros Hv.
  induction d as [|[k0 v0] d IH]; simpl.
  - now rewrite Hv.
  - rewrite andb_true_iff. intros [H0 Hd].
    destruct (String.eqb k0 k); simpl.
    + now rewrite Hv.
    + now rewrite H0, IH.
Qed.

(** A successful full fetch, on a disk that works, leaves the mirror
    holding the fetched snapshot and its [last_update]. *)
Lemma full_fetch_persists (t : datetime) (r : pydict) (st : state) :
  r <> [] -> serializable (PDict r) = true ->
  exists st',
    get_project_data t (Some r) DiskOk st = Ok st'
    /\ data st' = dict_set "last_update" (PStr (strftime_iso t)) r
    /\ last_update st' = StampText t
    /\ persisted st'.
Proof.
  intros Hr Hs. unfold get_project_data.
  assert (T : truthy (Some r) = true)
    by (destruct r; [congruence | reflexivity]).
  rewrite T. unfold await, save_project, persisted.
  cbn -[serializable dict_set strftime_iso].
  rewrite serializable_set by (exact Hs || reflexivity).
  eexists. split; [reflexivity|]. cbn -[serializable dict_set strftime_iso].
  split; [reflexivity|]. split; [reflexivity|].
  now rewrite dict_set_twice.
Qed.

(** C3, as the code has it: a refresh cycle that finds no activity record
    sets [last_update] to its clock reading, in memory, and changes nothing
    else: snapshot and mirror file are as before.  The mirror is rewritten
    by the full fetch: after a successful [get_project_data] on a working
    disk it holds the fetched snapshot with the new [last_update]. *)
Theorem quiet_cycle_advances_in_memory :
  (forall c st r,
     fetch_history c (last_update st) = Some r -> r <> [] ->
     py_len (get_or "activity" (PList []) r) = Ok 0 ->
     get_history_data c st = (set_last_update (StampText (now c)) st, None))
  /\ (forall t r st,
        r <> [] -> serializable (PDict r) = true ->
        exists st',
          get_project_data t (Some r) DiskOk st = Ok st'
          /\ data st' = dict_set "last_update" (PStr (strftime_iso t)) r
          /\ last_update st' = StampText t
          /\ persisted st').
Proof.
  split; [|exact full_fetch_persists].
  intros c st r Hh Hr Hlen. unfold get_history_data. rewrite Hh.
  destruct r as [|kv r]; [congruence|]. cbn [truthy].
  now rewrite Hlen.
Qed.

Lemma quiet_cycle_advances_in_memory_witness :
  get_history_data Examples.cycle_quiet Examples.cached
  = (set_last_update (StampText Examples.t1) Examples.cached, None)
  /\ exists st',
       get_project_data Examples.t0 (Some Examples.snapshot) DiskOk init = Ok st'
       /\ persisted st'.
Proof.
  destruct quiet_cycle_advances_in_memory as [Hq Hf].
  split.
  - apply (Hq Examples.cycle_quiet Examples.cached Examples.history_none);
      [reflexivity | discriminate | reflexivity].
  - destruct (Hf Examples.t0 Examples.snapshot init) as [st' [H1 [_ [_ H2]]]];
      [discriminate | reflexivity |].
    exists st'. split; assumption.
Defined.

(** C3 fails as stated: after a cycle without activity [last_update] is
    09:01:00 and the mirror still is the document written at 09:00:00. *)
Lemma quiet_cycle_does_not_persist :
  last_update (fst (get_history_data Examples.cycle_quiet Examples.cached))
  = StampText Examples.t1
  /\ mirror (fst (get_history_data Examples.cycle_quiet Examples.cached))
     = Document Examples.stored
  /\ ~ persisted (fst (get_history_data Examples.cycle_quiet Examples.cached)).
Proof.
  split; [reflexivity|]. split; [reflexivity|].
  unfold persisted. vm_compute. discriminate.
Qed.

(** The cycle that merges: [save_project()] is called and never awaited, so
    the snapshot changes and the mirror does not. *)
Lemma merge_cycle_leaves_mirror :
  get_card_info (fst (get_history_data Examples.cycle_merge Examples.cached)) "C1"
  = Ok Examples.card1'
  /\ mirror (fst (get_history_data Examples.cycle_merge Examples.cached))
     = Document Examples.stored
  /\ ~ persisted (fst (get_history_data Examples.cycle_merge Examples.cached)).
Proof.
  split; [reflexivity|]. split; [reflexivity|].
  unfold persisted. vm_compute. discriminate.
Qed.

(** The example state is what the full fetch of 09:00:00 leaves. *)
Lemma cached_by_full_fetch :
  get_project_data Examples.t0 (Some Examples.snapshot) DiskOk init
  = Ok Examples.cached.
Proof. reflexivity. Qed.

End Refresh.

(** ** The calendar *)

Section Calendar.

Import Spec Vocabulary.

Lemma days_in_a_row_each (count : nat) (o x : Z) :
  days_in_a_row count o = true -> o <= x < o + Z.of_nat count ->
  next_day_later x = true.
Proof.
  revert o. induction count as [|count IH]; intros o H Hx; [lia|].
  cbn [days_in_a_row] in H. apply andb_true_iff in H. destruct H as [H0 H].
  destruct (Z.eq_dec x o) as [->|Hne]; [exact H0|].
  apply (IH (o + 1) H). lia.
Qed.

(** The days of one cycle of 400 years, one by one. *)
Lemma next_day_later_in_cycle :
  days_in_a_row (Z.to_nat DI400Y) 1 = true.
Proof. vm_compute. reflexivity. Qed.

Lemma ord2ymd_period (o q : Z) :
  1 <= o -> 0 <= q ->
  ord2ymd (o + DI400Y * q) = later_year q (ord2ymd o).
Proof.
  intros Ho Hq. unfold ord2ymd, later_year.
  replace (o + DI400Y * q - 1) with (o - 1 + q * DI400Y) by lia.
  rewrite Z.div_add, Z.mod_add by (unfold DI400Y; lia).
  cbv zeta.
  destruct ((_ =? 4) || (_ =? 4)); [f_equal; f_equal; lia|].
  destruct (_ <? _); f_equal; f_equal; lia.
Qed.

Lemma next_day_later_always (o : Z) : 1 <= o -> next_day_later o = true.
Proof.
  intros Ho.
  set (q := (o - 1) / DI400Y). set (r := (o - 1) mod DI400Y + 1).
  assert (Hq : 0 <= q) by (apply Z.div_pos; unfold DI400Y; lia).
  assert (Hr : 1 <= r <= 146097).
  { unfold r. pose proof (Z.mod_pos_bound (o - 1) DI400Y).
    unfold DI400Y in *. lia. }
  assert (Ho' : o = r + DI400Y * q).
  { unfold r, q. pose proof (Z.div_mod (o - 1) DI400Y).
    unfold DI400Y in *. lia. }
  assert (Hcheck : next_day_later r = true).
  { apply (days_in_a_row_each _ 1 r next_day_later_in_cycle).
    rewrite Z2Nat.id by (unfold DI400Y; lia). unfold DI400Y. lia. }
  unfold next_day_later in *. rewrite Ho'.
  replace (r + DI400Y * q + 1) with (r + 1 + DI400Y * q) by lia.
  rewrite !ord2ymd_period by lia.
  destruct (ord2ymd r) as [[y m] d], (ord2ymd (r + 1)) as [[y' m'] d'].
  cbn [later_year ymd_fields lex_compare] in *.
  destruct (Z.compare_spec y y'), (Z.compare_spec (y + 400 * q) (y' + 400 * q));
    try lia; try discriminate; exact Hcheck.
Qed.

Lemma ord2ymd_monotone (o n : Z) :
  1 <= o -> 0 <= n ->
  lex_compare (ymd_fields (ord2ymd o)) (ymd_fields (ord2ymd (o + n))) <> Gt.
Proof.
  intros Ho Hn. revert n Hn.
  apply (natlike_ind (fun n =>
    lex_compare (ymd_fields (ord2ymd o)) (ymd_fields (ord2ymd (o + n))) <> Gt)).
  - rewrite Z.add_0_r, lex_compare_refl. discriminate.
  - intros n Hn IH.
    apply (lex_compare_le_trans _ (ymd_fields (ord2ymd (o + n)))); [exact IH|].
    replace (o + Z.succ n) with (o + n + 1) by lia.
    assert (H : next_day_later (o + n) = true)
      by (apply next_day_later_always; lia).
    unfold next_day_later in H. intros E. rewrite E in H. discriminate H.
Qed.

Lemma add_days_monotone (t : datetime) (n1 n2 : Z) (l1 l2 : datetime) :
  n1 <= n2 -> add_days t n1 = Ok l1 -> add_days t n2 = Ok l2 -> dt_le l1 l2.
Proof.
  intros Hn. unfold add_days.
  destruct ((n1 <? -999999999) || (999999999 <? n1)); [discriminate|].
  destruct ((n2 <? -999999999) || (999999999 <? n2)); [discriminate|].
  destruct ((toordinal t + n1 <? 1) || (MAXORDINAL <? toordinal t + n1)) eqn:E1;
    [discriminate|].
  destruct ((toordinal t + n2 <? 1) || (MAXORDINAL <? toordinal t + n2));
    [discriminate|].
  apply orb_false_iff in E1. destruct E1 as [E1 _]. apply Z.ltb_ge in E1.
  pose proof (ord2ymd_monotone (toordinal t + n1) (n2 - n1) E1) as Hmono.
  replace (toordinal t + n1 + (n2 - n1)) with (toordinal t + n2) in Hmono by lia.
  destruct (ord2ymd (toordinal t + n1)) as [[y1 m1] d1].
  destruct (ord2ymd (toordinal t + n2)) as [[y2 m2] d2].
  intros H1 H2. injection H1 as <-. injection H2 as <-.
  unfold dt_le, dt_leb, dt_compare, dt_fields. cbn [year month day hour minute second microsecond].
  cbn [ymd_fields lex_compare] in *.
  destruct (y1 ?= y2); try reflexivity; [|exfalso; apply Hmono; [lia | reflexivity]].
  destruct (m1 ?= m2); try reflexivity; [|exfalso; apply Hmono; [lia | reflexivity]].
  destruct (d1 ?= d2); try reflexivity; [|exfalso; apply Hmono; [lia | reflexivity]].
  now rewrite !Z.compare_refl.
Qed.

Lemma lex_compare_lt_trans (a b c : list Z) :
  lex_compare a b = Lt -> lex_compare b c = Lt -> lex_compare a c = Lt.
Proof.
  revert b c. induction a as [|x a IH]; intros [|y b] [|z c]; simpl;
    try congruence.
  destruct (Z.compare_spec x y), (Z.compare_spec y z), (Z.compare_spec x z);
    try congruence; try lia.
  apply IH.
Qed.

Lemma next_day_lt (o : Z) :
  1 <= o ->
  lex_compare (ymd_fields (ord2ymd o)) (ymd_fields (ord2ymd (o + 1))) = Lt.
Proof.
  intros Ho. pose proof (next_day_later_always o Ho) as H.
  unfold next_day_later in H.
  destruct (lex_compare _ _); [discriminate | reflexivity | discriminate].
Qed.

Lemma ord2ymd_increasing (o n : Z) :
  1 <= o -> 0 < n ->
  lex_compare (ymd_fields (ord2ymd o)) (ymd_fields (ord2ymd (o + n))) = Lt.
Proof.
  intros Ho Hn.
  replace n with (Z.succ (n - 1)) by lia.
  assert (H : 0 <= n - 1) by lia. revert H. generalize (n - 1). clear n Hn.
  apply natlike_ind.
  - now apply next_day_lt.
  - intros n Hn IH.
    apply (lex_compare_lt_trans _ (ymd_fields (ord2ymd (o + Z.succ n))));
      [exact IH|].
    replace (o + Z.succ (Z.succ n)) with (o + Z.succ n + 1) by lia.
    apply next_day_lt. lia.
Qed.

Lemma days_before_year_next (y : Z) :
  days_before_year (y + 1)
  = days_before_year y + 365 + (if is_leap y then 1 else 0).
Proof.
  unfold days_before_year, is_leap. cbv zeta.
  replace (y + 1 - 1) with y by lia.
  destruct (Z.eqb_spec (y mod 4) 0), (Z.eqb_spec (y mod 100) 0),
    (Z.eqb_spec (y mod 400) 0); cbn [negb orb andb];
    Z.div_mod_to_equations; lia.
Qed.

Lemma days_before_year_monotone (y y' : Z) :
  y <= y' -> days_before_year y <= days_before_year y'.
Proof.
  intros H. unfold days_before_year. cbv zeta.
  Z.div_mod_to_equations. lia.
Qed.

Lemma month_cases (m : Z) :
  1 <= m <= 12 ->
  m = 1 \/ m = 2 \/ m = 3 \/ m = 4 \/ m = 5 \/ m = 6 \/ m = 7 \/ m = 8
  \/ m = 9 \/ m = 10 \/ m = 11 \/ m = 12.
Proof. lia. Qed.

Ltac each_month m H :=
  destruct (month_cases m H)
    as [-> | [-> | [-> | [-> | [-> | [-> | [-> | [-> | [-> | [-> | [-> | ->]]]]]]]]]]].

(** The last day of a month is before the first of any later month, and
    the last day of a year before the first of the next. *)
Lemma days_before_month_next (y m m' : Z) :
  1 <= m <= 12 -> 1 <= m' <= 12 -> m < m' ->
  days_before_month y m + days_in_month y m <= days_before_month y m'.
Proof.
  intros Hm Hm' Hlt. unfold days_before_month, days_in_month.
  each_month m Hm; each_month m' Hm'; try lia;
    destruct (is_leap y); cbv; congruence.
Qed.

Lemma days_before_month_year (y m : Z) :
  1 <= m <= 12 ->
  0 <= days_before_month y m
  /\ days_before_month y m + days_in_month y m
     <= 365 + (if is_leap y then 1 else 0).
Proof.
  intros Hm. unfold days_before_month, days_in_month.
  each_month m Hm; destruct (is_leap y); cbv; intuition congruence.
Qed.

Lemma toordinal_increasing (a b : datetime) :
  calendar_date a -> calendar_date b ->
  lex_compare [year a; month a; day a] [year b; month b; day b] = Lt ->
  toordinal a < toordinal b.
Proof.
  intros [Hma Hda] [Hmb Hdb]. unfold toordinal, ymd2ord.
  cbn [lex_compare].
  destruct (Z.compare_spec (year a) (year b)) as [Ey|Hy|Hy];
    [|intros _|discriminate].
  - rewrite Ey in *.
    destruct (Z.compare_spec (month a) (month b)) as [Em|Hm|Hm];
      [|intros _|discriminate].
    + rewrite Em in *.
      destruct (Z.compare_spec (day a) (day b)); try discriminate. lia.
    + pose proof (days_before_month_next (year b) _ _ Hma Hmb Hm). lia.
  - pose proof (days_before_month_year (year a) _ Hma) as [_ H1].
    pose proof (days_before_month_year (year b) _ Hmb) as [H2 _].
    pose proof (days_before_year_next (year a)) as H3.
    pose proof (days_before_year_monotone (year a + 1) (year b)) as H4.
    lia.
Qed.

(** Two datetimes in order: either the dates are in order, strictly, or
    they are the same and the times of day are in order. *)
Lemma dt_le_cases (a b : datetime) :
  dt_le a b ->
  lex_compare [year a; month a; day a] [year b; month b; day b] = Lt
  \/ (year a = year b /\ month a = month b /\ day a = day b
      /\ lex_compare [hour a; minute a; second a; microsecond a]
                     [hour b; minute b; second b; microsecond b] <> Gt).
Proof.
  unfold dt_le, dt_leb, dt_compare, dt_fields. cbn [lex_compare].
  destruct (Z.compare_spec (year a) (year b)) as [Ey|_|_];
    [|now left|discriminate].
  destruct (Z.compare_spec (month a) (month b)) as [Em|_|_];
    [|now left|discriminate].
  destruct (Z.compare_spec (day a) (day b)) as [Ed|_|_];
    [|now left|discriminate].
  intros H. right. repeat split; try assumption.
  intros E. rewrite E in H. discriminate.
Qed.

(** A later reading of the clock has a later horizon. *)
Lemma add_days_later_reading (a b : datetime) (n : Z) (la lb : datetime) :
  calendar_date a -> calendar_date b -> dt_le a b ->
  add_days a n = Ok la -> add_days b n = Ok lb -> dt_le la lb.
Proof.
  intros Ha Hb H. unfold add_days.
  destruct ((n <? -999999999) || (999999999 <? n)); [discriminate|].
  destruct ((toordinal a + n <? 1) || (MAXORDINAL <? toordinal a + n)) eqn:Ea;
    [discriminate|].
  destruct ((toordinal b + n <? 1) || (MAXORDINAL <? toordinal b + n));
    [discriminate|].
  apply orb_false_iff in Ea. destruct Ea as [Ea _]. apply Z.ltb_ge in Ea.
  destruct (dt_le_cases a b H) as [Hlt|[Hy [Hm [Hd Ht]]]].
  - pose proof (toordinal_increasing a b Ha Hb Hlt) as Ho.
    pose proof (ord2ymd_increasing (toordinal a + n)
                  (toordinal b - toordinal a) Ea) as Hmono.
    replace (toordinal a + n + (toordinal b - toordinal a))
      with (toordinal b + n) in Hmono by lia.
    specialize (Hmono ltac:(lia)).
    destruct (ord2ymd (toordinal a + n)) as [[y1 m1] d1].
    destruct (ord2ymd (toordinal b + n)) as [[y2 m2] d2].
    intros H1 H2. injection H1 as <-. injection H2 as <-.
    unfold dt_le, dt_leb, dt_compare, dt_fields.
    cbn [year month day hour minute second microsecond].
    cbn [ymd_fields lex_compare] in *.
    destruct (y1 ?= y2); try reflexivity; try discriminate.
    destruct (m1 ?= m2); try reflexivity; try discriminate.
    destruct (d1 ?= d2); try reflexivity; discriminate.
  - assert (Ho : toordinal a = toordinal b)
      by (unfold toordinal; now rewrite Hy, Hm, Hd).
    rewrite Ho.
    destruct (ord2ymd (toordinal b + n)) as [[y m] d].
    intros H1 H2. injection H1 as <-. injection H2 as <-.
    unfold dt_le, dt_leb, dt_compare, dt_fields.
    cbn [year month day hour minute second microsecond].
    cbn [lex_compare] in *. rewrite !Z.compare_refl.
    destruct (hour a ?= hour b); try reflexivity; [|now elim Ht].
    destruct (minute a ?= minute b); try reflexivity; [|now elim Ht].
    destruct (second a ?= second b); try reflexivity; [|now elim Ht].
    destruct (microsecond a ?= microsecond b); try reflexivity. now elim Ht.
Qed.

End Calendar.

(** ** Due dates *)

Section DueDates.

Import Spec.

Lemma re_search_findall (s : string) :
  re_search s = true <-> re_findall s <> [].
Proof.
  unfold re_findall. induction s as [|c s IH].
  - simpl. split; [discriminate | congruence].
  - cbn [re_search findall_from].
    destruct (DATE_REGEX (String c s)); [|exact IH].
    split; [discriminate | reflexivity].
Qed.

(** *** The stable sort *)

Lemma filter_all {X : Type} (l : list X) : filter (fun _ => true) l = l.
Proof. induction l as [|x l IH]; simpl; [reflexivity | now rewrite IH]. Qed.

Lemma insert_by_key_perm (x : datetime * due_entry) (l : list (datetime * due_entry)) :
  Permutation (x :: l) (insert_by_key x l).
Proof.
  induction l as [|y l IH]; simpl; [reflexivity|].
  destruct (dt_ltb (fst y) (fst x)); [|reflexivity].
  rewrite perm_swap. now constructor.
Qed.

Lemma sort_by_key_perm (l : list (datetime * due_entry)) :
  Permutation l (sort_by_key l).
Proof.
  induction l as [|x l IH]; simpl; [reflexivity|].
  rewrite <- insert_by_key_perm. now constructor.
Qed.

Lemma insert_by_key_sorted (x : datetime * due_entry) (l : list (datetime * due_entry)) :
  StronglySorted key_le l -> StronglySorted key_le (insert_by_key x l).
Proof.
  induction 1 as [|y l Hs IH Hall]; simpl.
  - constructor; constructor.
  - destruct (dt_ltb (fst y) (fst x)) eqn:E.
    + constructor; [exact IH|].
      rewrite <- insert_by_key_perm. constructor; [|exact Hall].
      now apply dt_ltb_le.
    + apply dt_ltb_false in E.
      constructor; [now constructor|].
      constructor; [exact E|].
      eapply Forall_impl; [|exact Hall].
      intros z Hz. unfold key_le in *. eapply dt_le_trans; eassumption.
Qed.

Lemma sort_by_key_sorted (l : list (datetime * due_entry)) :
  StronglySorted key_le (sort_by_key l).
Proof.
  induction l as [|x l IH]; simpl; [constructor|].
  now apply insert_by_key_sorted.
Qed.

(** The sort is stable: the entries of one key keep the order they had. *)
Lemma lex_compare_eq (a b : list Z) : lex_compare a b = Eq -> a = b.
Proof.
  revert b. induction a as [|x a IH]; intros [|y b]; simpl;
    try discriminate; [reflexivity|].
  destruct (Z.compare_spec x y) as [Hxy|Hxy|Hxy]; try discriminate.
  intros Hrest. subst. f_equal. now apply IH.
Qed.

Lemma has_key_not_below (k : datetime) (x y : datetime * due_entry) :
  has_key k x = true -> has_key k y = true -> dt_ltb (fst y) (fst x) = false.
Proof.
  unfold has_key, dt_ltb, dt_compare. intros Hx Hy.
  destruct (lex_compare (dt_fields (fst x)) (dt_fields k)) eqn:Ex;
    try discriminate.
  destruct (lex_compare (dt_fields (fst y)) (dt_fields k)) eqn:Ey;
    try discriminate.
  apply lex_compare_eq in Ex, Ey. rewrite Ex, Ey.
  now rewrite lex_compare_refl.
Qed.

Lemma insert_by_key_stable (k : datetime) (x : datetime * due_entry)
    (l : list (datetime * due_entry)) :
  filter (has_key k) (insert_by_key x l) = filter (has_key k) (x :: l).
Proof.
  induction l as [|y l IH]; [reflexivity|].
  cbn [insert_by_key]. destruct (dt_ltb (fst y) (fst x)) eqn:E; [|reflexivity].
  cbn [filter] in *. rewrite IH.
  destruct (has_key k x) eqn:Hx, (has_key k y) eqn:Hy; try reflexivity.
  rewrite (has_key_not_below k x y Hx Hy) in E. discriminate.
Qed.

Lemma sort_by_key_stable (k : datetime) (l : list (datetime * due_entry)) :
  filter (has_key k) (sort_by_key l) = filter (has_key k) l.
Proof.
  induction l as [|x l IH]; [reflexivity|].
  cbn [sort_by_key]. rewrite insert_by_key_stable. cbn [filter].
  now rewrite IH.
Qed.

Lemma StronglySorted_map {X Y : Type} (R : X -> X -> Prop) (Q : Y -> Y -> Prop)
    (f : X -> Y) (P : X -> Prop) (l : list X) :
  (forall a b, P a -> P b -> R a b -> Q (f a) (f b)) ->
  Forall P l -> StronglySorted R l -> StronglySorted Q (map f l).
Proof.
  intros HRQ HP Hs. induction Hs as [|a l Hs IH Hall]; simpl; [constructor|].
  inversion HP as [|? ? Pa Pl]; subst.
  constructor; [now apply IH|].
  rewrite Forall_forall in *. intros y Hy.
  apply in_map_iff in Hy. destruct Hy as [b [<- Hb]].
  apply HRQ; auto.
Qed.

Lemma StronglySorted_filter {X : Type} (R : X -> X -> Prop) (c : X -> bool)
    (l : list X) :
  StronglySorted R l -> StronglySorted R (filter c l).
Proof.
  induction 1 as [|a l Hs IH Hall]; simpl; [constructor|].
  destruct (c a); [|exact IH].
  constructor; [exact IH|].
  rewrite Forall_forall in *. intros y Hy. apply filter_In in Hy. now apply Hall.
Qed.

(** With every key at hand, [sort_due] returns the entries in a new order,
    ascending in the date of the first token. *)
Lemma sort_due_total (l : list due_entry) :
  Forall (fun x => exists t, due_key x = Ok t) l ->
  exists l', sort_due l = Ok l' /\ Permutation l l'
             /\ StronglySorted by_first_due l'.
Proof.
  intros Hk. unfold sort_due.
  set (key_of := fun x => match due_key x with
                          | Ok t => t | Raise _ => mkDT 0 0 0 0 0 0 0 end).
  rewrite (comprehension_total _ _ (fun _ => true) (fun x => (key_of x, x))).
  - rewrite filter_all. simpl. eexists. split; [reflexivity|]. split.
    + rewrite <- sort_by_key_perm, map_map. simpl. now rewrite map_id.
    + apply (StronglySorted_map key_le by_first_due snd
               (fun p => due_key (snd p) = Ok (fst p))).
      * intros a b Ha Hb Hab. exists (fst a), (fst b). now repeat split.
      * rewrite <- sort_by_key_perm.
        rewrite Forall_forall in *. intros p Hp.
        apply in_map_iff in Hp. destruct Hp as [x [<- Hx]]. simpl.
        destruct (Hk x Hx) as [t Ht]. unfold key_of. now rewrite Ht.
      * apply sort_by_key_sorted.
  - eapply Forall_impl; [|exact Hk].
    intros x [t Ht]. split; [reflexivity|]. intros _.
    unfold key_of. now rewrite Ht.
Qed.

(** *** The entries *)

Lemma due_scan_total (vs : list pyval) :
  Forall content_ok vs ->
  comprehension
    (fun c => s <- content_of c ;; Ok (re_search s))
    (fun c => s <- content_of c ;; Ok (mkDue c (re_findall s)))
    vs
  = Ok (due_entries vs).
Proof.
  intros H. apply comprehension_total.
  eapply Forall_impl; [|exact H].
  intros c [s [Hs _]]. unfold has_due, entry_of. rewrite Hs. simpl.
  split; reflexivity.
Qed.

Lemma due_entries_in (vs : list pyval) (x : due_entry) :
  In x (due_entries vs) ->
  In (card x) vs /\
  exists s, content_of (card x) = Ok s /\ matches x = re_findall s
            /\ re_findall s <> [].
Proof.
  unfold due_entries. intros H.
  apply in_map_iff in H. destruct H as [c [<- Hc]].
  apply filter_In in Hc. destruct Hc as [Hin Hdue].
  split; [exact Hin|]. unfold has_due, entry_of in *. simpl.
  destruct (content_of c) as [s|e]; [|discriminate].
  exists s. repeat split. now apply re_search_findall.
Qed.

Lemma due_entries_keys (vs : list pyval) :
  Forall content_ok vs ->
  Forall (fun x => exists t, due_key x = Ok t) (due_entries vs).
Proof.
  intros H. apply Forall_forall. intros x Hx.
  destruct (due_entries_in vs x Hx) as [Hin [s [Hs [Hm Hne]]]].
  rewrite Forall_forall in H. destruct (H _ Hin) as [s' [Hs' Hfirst]].
  assert (s' = s) by congruence. subst s'.
  unfold due_key. rewrite Hm.
  destruct (re_findall s); [congruence | exact Hfirst].
Qed.

(** *** The horizon *)

Lemma within_horizon_fixed_clock (clock : nat -> datetime) (days_ahead : Z)
    (t limit : datetime) (l : list due_entry) (k : nat) :
  Forall (fun x => exists d, due_key x = Ok d) l ->
  (forall i, clock i = t) -> add_days t days_ahead = Ok limit ->
  within_horizon clock days_ahead k l = Ok (filter (due_by limit) l).
Proof.
  intros Hk Hclock Hlimit. revert k.
  induction Hk as [|x l [d Hd] _ IH]; intros k; simpl; [reflexivity|].
  rewrite Hd, Hclock, Hlimit. simpl. rewrite IH. simpl.
  unfold due_by. now rewrite Hd.
Qed.

Lemma within_horizon_total (clock : nat -> datetime) (days_ahead : Z)
    (l : list due_entry) (k : nat) :
  Forall (fun x => exists d, due_key x = Ok d) l ->
  (forall i, exists limit, add_days (clock i) days_ahead = Ok limit) ->
  exists l', within_horizon clock days_ahead k l = Ok l'
             /\ incl l' l
             /\ forall R, StronglySorted R l -> StronglySorted R l'.
Proof.
  intros Hk Hclock. revert k.
  induction Hk as [|x l [d Hd] _ IH]; intros k; simpl.
  - exists []. repeat split; [apply incl_refl | auto].
  - destruct (Hclock k) as [limit Hlimit].
    destruct (IH (S k)) as [r [Hr [Hincl Hsorted]]].
    rewrite Hd, Hlimit, Hr. simpl. eexists. split; [reflexivity|].
    destruct (dt_leb d limit).
    + split.
      * intros y [<-|Hy]; [now left | right; now apply Hincl].
      * intros R HR. inversion HR as [|? ? Hs Hall]; subst.
        constructor; [now apply Hsorted|].
        rewrite Forall_forall in *. intros y Hy. now apply Hall, Hincl.
    + split.
      * intros y Hy. right. now apply Hincl.
      * intros R HR. inversion HR; subst. now apply Hsorted.
Qed.

(** C4, as the code has it: on a snapshot of well-formed cards
    [get_due_cards] returns a list sorted ascending by the date of the first
    bracketed token of each card's content, and every entry of it is a card
    of the snapshot whose content has at least one token: a card without a
    token is not in the list. *)
Theorem get_due_cards_sorted_by_first_token (clock : nat -> datetime)
    (st : state) (days_ahead : Z) (cs : pydict) :
  get_or "card" (PDict []) (data st) = PDict cs ->
  Forall content_ok (dict_values cs) ->
  horizon_ok clock days_ahead ->
  exists l,
    get_due_cards clock st days_ahead = Ok l
    /\ StronglySorted by_first_due l
    /\ forall x, In x l ->
         In (card x) (dict_values cs) /\
         exists s, content_of (card x) = Ok s /\ matches x = re_findall s
                   /\ re_findall s <> [].
Proof.
  intros Hcards Hok Hclock. unfold get_due_cards. rewrite Hcards. simpl.
  rewrite due_scan_total by exact Hok. simpl.
  destruct (sort_due_total _ (due_entries_keys _ Hok)) as [all [Hs [Hp Hsorted]]].
  rewrite Hs. simpl.
  assert (Hall : forall x, In x all ->
            In (card x) (dict_values cs) /\
            exists s, content_of (card x) = Ok s /\ matches x = re_findall s
                      /\ re_findall s <> []).
  { intros x Hx. apply due_entries_in.
    eapply Permutation_in; [symmetry; exact Hp | exact Hx]. }
  destruct (0 <? days_ahead) eqn:E.
  - destruct Hclock as [Hneg|Hclock]; [apply Z.ltb_lt in E; lia|].
    destruct (within_horizon_total clock days_ahead all 0) as [l [Hl [Hincl Hkeep]]].
    + eapply Permutation_Forall; [exact Hp | now apply due_entries_keys].
    + exact Hclock.
    + exists l. split; [exact Hl|]. split; [now apply Hkeep|].
      intros x Hx. now apply Hall, Hincl.
  - exists all. repeat split; [exact Hsorted | now apply Hall | now apply Hall].
Qed.

(** The filter, reading by reading. *)

Lemma within_horizon_by_reading (clock : nat -> datetime) (days_ahead : Z)
    (l : list due_entry) (k : nat) :
  Forall (fun x => exists d, due_key x = Ok d) l ->
  (forall i, exists limit, add_days (clock i) days_ahead = Ok limit) ->
  within_horizon clock days_ahead k l
  = Ok (map snd (filter (due_at clock days_ahead)
                   (combine (seq k (List.length l)) l))).
Proof.
  intros Hk Hclock. revert k.
  induction Hk as [|x l [d Hd] _ IH]; intros k; [reflexivity|].
  cbn [within_horizon List.length seq combine filter].
  destruct (Hclock k) as [limit Hlimit].
  rewrite Hd, Hlimit. cbn [bind]. rewrite IH. cbn [bind].
  assert (E : due_at clock days_ahead (k, x) = dt_leb d limit).
  { unfold due_at. cbn [fst snd]. rewrite Hlimit. unfold due_by. now rewrite Hd. }
  rewrite E. now destruct (dt_leb d limit).
Qed.

Lemma numbered_filter_in (p : nat * due_entry -> bool) (l : list due_entry)
    (k : nat) (x : due_entry) :
  In x (map snd (filter p (combine (seq k (List.length l)) l)))
  <-> exists i, nth_error l i = Some x /\ p ((k + i)%nat, x) = true.
Proof.
  revert k. induction l as [|y l IH]; intros k.
  - split; [contradiction|]. intros [[|i] [H _]]; discriminate.
  - cbn [List.length seq combine filter]. split.
    + intros H.
      assert (H' : (y = x /\ p (k, y) = true)
                   \/ In x (map snd (filter p (combine (seq (S k) (List.length l)) l)))).
      { destruct (p (k, y)); [destruct H as [H|H]; auto|auto]. }
      destruct H' as [[-> Hp]|H'].
      * exists O. rewrite Nat.add_0_r. split; [reflexivity | exact Hp].
      * apply IH in H'. destruct H' as [i [Hi Hp]].
        exists (S i). rewrite Nat.add_succ_r. split; assumption.
    + intros [[|i] [Hi Hp]].
      * cbn in Hi. injection Hi as ->. rewrite Nat.add_0_r in Hp.
        rewrite Hp. now left.
      * assert (H : In x (map snd (filter p
                           (combine (seq (S k) (List.length l)) l)))).
        { apply IH. exists i. rewrite Nat.add_succ_r in Hp. split; assumption. }
        destruct (p (k, y)); [now right | exact H].
Qed.

Lemma numbered_filter_sorted (R : due_entry -> due_entry -> Prop)
    (p : nat * due_entry -> bool) (l : list due_entry) (k : nat) :
  StronglySorted R l ->
  StronglySorted R (map snd (filter p (combine (seq k (List.length l)) l))).
Proof.
  intros H. revert k. induction H as [|y l Hs IH Hall]; intros k.
  - constructor.
  - cbn [List.length seq combine filter].
    destruct (p (k, y)); [|apply IH].
    cbn [map snd]. constructor; [apply IH|].
    rewrite Forall_forall in *. intros x Hx. apply Hall.
    apply numbered_filter_in in Hx. destruct Hx as [i [Hi _]].
    now apply nth_error_In in Hi.
Qed.

Lemma due_at_reading_in (clock : nat -> datetime) (days_ahead : Z)
    (l : list due_entry) (x : due_entry) :
  In x (due_at_reading clock days_ahead l)
  <-> exists i, nth_error l i = Some x /\ due_at clock days_ahead (i, x) = true.
Proof. apply (numbered_filter_in _ l 0). Qed.

Lemma due_at_one_reading (clock : nat -> datetime) (days_ahead : Z)
    (t limit : datetime) (l : list due_entry) (k : nat) :
  (forall i, clock i = t) -> add_days t days_ahead = Ok limit ->
  map snd (filter (due_at clock days_ahead) (combine (seq k (List.length l)) l))
  = filter (due_by limit) l.
Proof.
  intros Hclock Hlimit. revert k.
  induction l as [|x l IH]; intros k; [reflexivity|].
  cbn [List.length seq combine filter].
  assert (E : due_at clock days_ahead (k, x) = due_by limit x).
  { unfold due_at. cbn [fst snd]. now rewrite Hclock, Hlimit. }
  rewrite E. destruct (due_by limit x); cbn [map snd]; now rewrite IH.
Qed.

Lemma due_by_later (limit limit' : datetime) (x : due_entry) :
  dt_le limit limit' -> due_by limit x = true -> due_by limit' x = true.
Proof.
  unfold due_by. intros H. destruct (due_key x) as [d|]; [|discriminate].
  intros Hd. exact (dt_le_trans d limit limit' Hd H).
Qed.

Lemma due_at_readings_between (clock : nat -> datetime) (days_ahead : Z)
    (t0 t1 limit0 limit1 : datetime) (l : list due_entry) :
  (forall k, calendar_date (clock k)
             /\ dt_le t0 (clock k) /\ dt_le (clock k) t1) ->
  calendar_date t0 -> calendar_date t1 ->
  (forall k, exists limit, add_days (clock k) days_ahead = Ok limit) ->
  add_days t0 days_ahead = Ok limit0 -> add_days t1 days_ahead = Ok limit1 ->
  incl (filter (due_by limit0) l) (due_at_reading clock days_ahead l)
  /\ incl (due_at_reading clock days_ahead l) (filter (due_by limit1) l).
Proof.
  intros Hclock H0 H1 Hok Hl0 Hl1. split; intros x Hx.
  - apply filter_In in Hx. destruct Hx as [Hin Hdue].
    apply due_at_reading_in. apply In_nth_error in Hin.
    destruct Hin as [i Hi]. exists i. split; [exact Hi|].
    unfold due_at. cbn [fst snd]. destruct (Hok i) as [limit Hlimit].
    rewrite Hlimit. apply (due_by_later limit0); [|exact Hdue].
    destruct (Hclock i) as [Hc [Hle _]].
    exact (add_days_later_reading t0 (clock i) days_ahead _ _ H0 Hc Hle Hl0 Hlimit).
  - apply due_at_reading_in in Hx. destruct Hx as [i [Hi Hdue]].
    apply filter_In. split; [now apply nth_error_In in Hi|].
    unfold due_at in Hdue. cbn [fst snd] in Hdue.
    destruct (add_days (clock i) days_ahead) as [limit|] eqn:Hlimit;
      [|discriminate].
    apply (due_by_later limit); [|exact Hdue].
    destruct (Hclock i) as [Hc [_ Hle]].
    exact (add_days_later_reading (clock i) t1 days_ahead _ _ Hc H1 Hle Hlimit Hl1).
Qed.

(** C5, as the code has it: on a snapshot of well-formed cards, with
    [days_ahead <= 0] the result is the list of all the cards that have a
    token, sorted by the date of the first token.  With [days_ahead > 0]
    the clock is read once per card, and the result is that list, in the
    same order, without the cards whose first token's date is after their
    own reading plus [days_ahead] days.  With one reading for all the cards
    this is the filter by that reading plus [days_ahead] days; with
    readings between [t0] and [t1], every card whose first date is on or
    before [t0] plus [days_ahead] days is returned, and every card returned
    has its first date on or before [t1] plus [days_ahead] days. *)
Theorem get_due_cards_horizon (st : state) (cs : pydict) :
  get_or "card" (PDict []) (data st) = PDict cs ->
  Forall content_ok (dict_values cs) ->
  exists all,
    Permutation (due_entries (dict_values cs)) all
    /\ StronglySorted by_first_due all
    /\ (forall clock days_ahead,
          days_ahead <= 0 -> get_due_cards clock st days_ahead = Ok all)
    /\ (forall clock days_ahead,
          0 < days_ahead ->
          (forall k, exists limit, add_days (clock k) days_ahead = Ok limit) ->
          get_due_cards clock st days_ahead
          = Ok (due_at_reading clock days_ahead all)
          /\ StronglySorted by_first_due (due_at_reading clock days_ahead all)
          /\ (forall t limit,
                (forall k, clock k = t) -> add_days t days_ahead = Ok limit ->
                due_at_reading clock days_ahead all = filter (due_by limit) all)
          /\ (forall t0 t1 limit0 limit1,
                (forall k, calendar_date (clock k)
                           /\ dt_le t0 (clock k) /\ dt_le (clock k) t1) ->
                calendar_date t0 -> calendar_date t1 ->
                add_days t0 days_ahead = Ok limit0 ->
                add_days t1 days_ahead = Ok limit1 ->
                incl (filter (due_by limit0) all)
                     (due_at_reading clock days_ahead all)
                /\ incl (due_at_reading clock days_ahead all)
                        (filter (due_by limit1) all))).
Proof.
  intros Hcards Hok.
  destruct (sort_due_total _ (due_entries_keys _ Hok)) as [all [Hs [Hp Hsorted]]].
  exists all. split; [exact Hp|]. split; [exact Hsorted|].
  split.
  - intros clock n Hn. unfold get_due_cards. rewrite Hcards. simpl.
    rewrite due_scan_total by exact Hok. simpl. rewrite Hs. simpl.
    apply Z.ltb_ge in Hn. now rewrite Hn.
  - intros clock n Hn Hclock. split; [|split; [|split]].
    + unfold get_due_cards. rewrite Hcards. simpl.
      rewrite due_scan_total by exact Hok. simpl. rewrite Hs. simpl.
      apply Z.ltb_lt in Hn. rewrite Hn.
      apply within_horizon_by_reading; [|exact Hclock].
      eapply Permutation_Forall; [exact Hp | now apply due_entries_keys].
    + now apply numbered_filter_sorted.
    + intros t limit Ht Hlimit. now apply due_at_one_reading with (t := t).
    + intros t0 t1 limit0 limit1 Hbetween H0 H1 Hl0 Hl1.
      now apply due_at_readings_between with (t0 := t0) (t1 := t1).
Qed.

(** *** Concrete runs *)

Lemma example_cards_ok :
  Forall content_ok
    (dict_values [("A", Examples.card_moved); ("B", Examples.card_soon);
                  ("C", Examples.card_later); ("D", Examples.card2)]).
Proof.
  apply Forall_cons; [|apply Forall_cons; [|apply Forall_cons;
    [|apply Forall_cons; [|apply Forall_nil]]]];
    (eexists; split; [reflexivity|]; simpl; try (eexists; reflexivity); exact I).
Qed.

Lemma get_due_cards_sorted_by_first_token_witness :
  exists l,
    get_due_cards Examples.noon
      (Examples.with_cards
         [("A", Examples.card_moved); ("B", Examples.card_soon);
          ("C", Examples.card_later); ("D", Examples.card2)]) 2 = Ok l
    /\ StronglySorted by_first_due l.
Proof.
  destruct (get_due_cards_sorted_by_first_token Examples.noon
              (Examples.with_cards
                 [("A", Examples.card_moved); ("B", Examples.card_soon);
                  ("C", Examples.card_later); ("D", Examples.card2)])
              2 _ eq_refl example_cards_ok) as [l [H1 [H2 _]]].
  - right. intros k. eexists. reflexivity.
  - exists l. split; assumption.
Defined.

Lemma midnight_cards_ok :
  Forall content_ok
    (dict_values [("B", Examples.card_later); ("C", Examples.card_later')]).
Proof.
  apply Forall_cons; [|apply Forall_cons; [|apply Forall_nil]];
    (eexists; split; [reflexivity|]; simpl; eexists; reflexivity).
Qed.

Lemma get_due_cards_horizon_witness :
  exists all,
    get_due_cards Examples.midnight
      (Examples.with_cards [("B", Examples.card_later); ("C", Examples.card_later')]) 0
    = Ok all
    /\ get_due_cards Examples.midnight
         (Examples.with_cards [("B", Examples.card_later); ("C", Examples.card_later')]) 3
       = Ok (due_at_reading Examples.midnight 3 all)
    /\ incl (filter (due_by (mkDT 2025 1 4 23 59 59 999990)) all)
            (due_at_reading Examples.midnight 3 all)
    /\ incl (due_at_reading Examples.midnight 3 all)
            (filter (due_by (mkDT 2025 1 5 0 0 0 10)) all).
Proof.
  destruct (get_due_cards_horizon
              (Examples.with_cards
                 [("B", Examples.card_later); ("C", Examples.card_later')])
              _ eq_refl midnight_cards_ok) as [all [_ [_ [H0 Hn]]]].
  exists all. split; [apply H0; lia|].
  destruct (Hn Examples.midnight 3) as [Hrun [_ [_ Hbetween]]]; [lia | |].
  - intros [|k]; eexists; reflexivity.
  - split; [exact Hrun|].
    apply (Hbetween (Examples.midnight 0) (Examples.midnight 1)); try reflexivity;
      try (split; cbv; intuition discriminate).
    intros [|k]; repeat split; cbv; discriminate.
Defined.

(** C4 fails as stated: the card "moved from [01/01/30] to [01/01/20]" has
    2020-01-01 as the earliest of its dates and is sorted after the card of
    2025-01-01, by its first token. *)
Lemma first_token_is_not_earliest_date :
  get_due_cards Examples.noon
    (Examples.with_cards [("A", Examples.card_moved); ("B", Examples.card_soon)]) 0
  = Ok [Examples.due_soon; Examples.due_moved]
  /\ earliest (matches Examples.due_soon) = Some (mkDT 2025 1 1 0 0 0 0)
  /\ earliest (matches Examples.due_moved) = Some (mkDT 2020 1 1 0 0 0 0)
  /\ ~ StronglySorted by_earliest_due [Examples.due_soon; Examples.due_moved].
Proof.
  split; [reflexivity|]. split; [reflexivity|]. split; [reflexivity|].
  intros H. inversion H as [|? ? _ Hall]; subst.
  inversion Hall as [|? ? [ta [tb [Ha [Hb Hle]]]] _]; subst.
  vm_compute in Ha, Hb. injection Ha as <-. injection Hb as <-.
  vm_compute in Hle. discriminate.
Qed.

(** C5 fails as stated: on 2025-01-01 with ten days ahead that same card is
    left out, though the earliest of its dates, 2020-01-01, is not after
    2025-01-11. *)
Lemma horizon_uses_first_token :
  get_due_cards Examples.noon
    (Examples.with_cards [("A", Examples.card_moved); ("B", Examples.card_soon)]) 0
  = Ok [Examples.due_soon; Examples.due_moved]
  /\ get_due_cards Examples.noon
       (Examples.with_cards [("A", Examples.card_moved); ("B", Examples.card_soon)]) 10
     = Ok [Examples.due_soon]
  /\ ~ In Examples.due_moved [Examples.due_soon]
  /\ add_days (Examples.noon 0) 10 = Ok (mkDT 2025 1 11 12 0 0 0)
  /\ earliest (matches Examples.due_moved) = Some (mkDT 2020 1 1 0 0 0 0)
  /\ dt_ltb (mkDT 2025 1 11 12 0 0 0) (mkDT 2020 1 1 0 0 0 0) = false.
Proof.
  split; [reflexivity|]. split; [reflexivity|]. split.
  - intros [H|[]]. discriminate.
  - repeat split; reflexivity.
Qed.

(** The clock is read for each card: on the night of 2025-01-01, three
    days ahead, of two cards of 2025-01-05 the one compared before midnight
    is left out and the one compared after it is kept. *)
Lemma horizon_moves_with_the_clock :
  get_due_cards Examples.midnight
    (Examples.with_cards [("B", Examples.card_later); ("C", Examples.card_later')]) 3
  = Ok [Examples.due_later']
  /\ due_key Examples.due_later = Ok (mkDT 2025 1 5 0 0 0 0)
  /\ due_key Examples.due_later' = Ok (mkDT 2025 1 5 0 0 0 0)
  /\ add_days (Examples.midnight 0) 3 = Ok (mkDT 2025 1 4 23 59 59 999990)
  /\ add_days (Examples.midnight 1) 3 = Ok (mkDT 2025 1 5 0 0 0 10).
Proof. repeat split; reflexivity. Qed.

(** A first token that is no date of the calendar makes [strptime] raise
    while the keys are computed. *)
Lemma get_due_cards_invalid_date :
  get_due_cards Examples.noon
    (Examples.with_cards [("A", Examples.card_soon); ("B", Examples.card_never)]) 0
  = Raise ValueError.
Proof. reflexivity. Qed.

(** A horizon beyond what [timedelta] holds raises as soon as there is a
    card to compare. *)
Lemma get_due_cards_overflow :
  get_due_cards Examples.noon
    (Examples.with_cards [("A", Examples.card_soon)]) 1000000000
  = Raise OverflowError.
Proof. reflexivity. Qed.

(** The card "[05/01/25] renew" on 2025-01-01: within ten days, not within
    two. *)
Lemma horizon_ten_and_two :
  get_due_cards Examples.noon (Examples.with_cards [("A", Examples.card_later)]) 10
  = Ok [Examples.due_later]
  /\ get_due_cards Examples.noon (Examples.with_cards [("A", Examples.card_later)]) 2
     = Ok [].
Proof. split; reflexivity. Qed.

End DueDates.

(** ** Readers against the merge *)

Section ReadersAndWriter.

Import Isolation.

Context {A : Type}.
Variable keys : list (string * pyval).
Variable compute : list pyval -> A.
Variable response d0 : pydict.

Lemma inv_start : inv A keys compute response d0 (start d0).
Proof. repeat split. Qed.

Lemma inv_step (s s' : sys A) :
  inv A keys compute response d0 s -> step A keys compute response s s' ->
  inv A keys compute response d0 s'.
Proof.
  unfold inv, writer_inv, exclusive, reader_inv.
  intros [Hw [Hx Hr]] Hstep.
  destruct Hstep; simpl in *.
  - (* the reader enters its block *)
    destruct w; simpl in *; intuition discriminate.
  - (* the reader reads a key *)
    destruct Hr as [Hl Hgot]. rewrite <- app_assoc. simpl.
    destruct w; simpl in *; intuition auto.
  - (* the reader leaves its block *)
    destruct Hr as [_ Hgot]. rewrite app_nil_r in Hgot.
    destruct w; simpl in *; intuition (subst; auto; discriminate).
  - (* the reader returns *)
    destruct Hr as [Hgot Hearly]. unfold alone.
    destruct w; simpl in *;
      try specialize (Hearly eq_refl);
      intuition (subst; auto; discriminate).
  - (* the merge enters its block *)
    destruct r; simpl in *; intuition (subst; auto; discriminate).
  - (* the merge assigns an item *)
    destruct r; simpl in *; intuition (subst; auto; discriminate).
  - (* the merge leaves its block *)
    destruct r; simpl in *; intuition (subst; auto; discriminate).
Qed.

Lemma inv_reachable (s : sys A) :
  reachable A keys compute response (start d0) s ->
  inv A keys compute response d0 s.
Proof.
  induction 1 as [|s s' _ IH Hstep]; [apply inv_start|].
  eapply inv_step; eassumption.
Qed.

(** Whatever the interleaving, an accessor returns what it returns when run
    alone on the snapshot before the merge or on the snapshot after it, and
    the former when it returns before the merge has taken the lock. *)
Lemma accessor_isolated (s : sys A) (a : A) :
  reachable A keys compute response (start d0) s ->
  rd s = RDone a ->
  (a = alone A keys compute d0
   \/ a = alone A keys compute (dict_update d0 response))
  /\ (wr s = WWait -> a = alone A keys compute d0).
Proof.
  intros Hreach Hdone. apply inv_reachable in Hreach.
  destruct Hreach as [_ [_ Hr]]. unfold reader_inv in Hr.
  now rewrite Hdone in Hr.
Qed.

End ReadersAndWriter.

Section GetCardsIsolation.

Import Isolation.

Lemma get_cards_alone (st : state) (deck_id : string) :
  alone _ get_cards_keys (get_cards_compute deck_id) (data st)
  = get_cards st deck_id.
Proof. reflexivity. Qed.

Lemma get_card_data_data (response : pydict) (d : disk) (st : state) :
  data (get_card_data (Some response) d st) = dict_update (data st) response.
Proof. unfold get_card_data. destruct response; reflexivity. Qed.

(** C9: in every interleaving of [get_cards] with the merge of
    [get_card_data], statement by statement under [data_lock], [get_cards]
    returns what it returns on the snapshot before the merge or what it
    returns on the snapshot after it; when it returns before the merge has
    taken the lock, it returns what it returns on the snapshot before. *)
Theorem get_cards_isolated (st : state) (response : pydict) (d : disk)
    (deck_id : string) (s : sys (result (list pyval)))
    (cards : result (list pyval)) :
  reachable _ get_cards_keys (get_cards_compute deck_id) response
    (start (data st)) s ->
  rd s = RDone cards ->
  (cards = get_cards st deck_id
   \/ cards = get_cards (get_card_data (Some response) d st) deck_id)
  /\ (wr s = WWait -> cards = get_cards st deck_id).
Proof.
  intros Hreach Hdone.
  destruct (accessor_isolated get_cards_keys (get_cards_compute deck_id)
              response (data st) s cards Hreach Hdone) as [Hor Hearly].
  rewrite <- !get_cards_alone, get_card_data_data.
  split; assumption.
Qed.

(** A run in which the reader is done before the merge starts. *)
Lemma reader_first_run :
  reachable _ get_cards_keys (get_cards_compute "sprint") Examples.payload
    (start Examples.stored)
    (mkSys Examples.stored false
       (RDone (get_cards_compute "sprint"
                 (map (read Examples.stored) get_cards_keys)))
       WWait).
Proof.
  eapply reach_step; [|apply r_return].
  eapply reach_step; [|apply r_release].
  eapply reach_step;
    [|apply (r_get _ _ _ _ _ ("deck", PDict []) []
               [read Examples.stored ("card", PDict [])])].
  eapply reach_step;
    [|apply (r_get _ _ _ _ _ ("card", PDict []) [("deck", PDict [])] [])].
  eapply reach_step; [|apply r_acquire].
  apply reach_start.
Qed.

(** A run in which the merge is done before the reader starts. *)
Lemma writer_first_run :
  reachable _ get_cards_keys (get_cards_compute "sprint") Examples.payload
    (start Examples.stored)
    (mkSys (dict_update Examples.stored Examples.payload) false
       (RDone (get_cards_compute "sprint"
                 (map (read (dict_update Examples.stored Examples.payload))
                      get_cards_keys)))
       WDone).
Proof.
  eapply reach_step; [|apply r_return].
  eapply reach_step; [|apply r_release].
  eapply reach_step;
    [|apply (r_get _ _ _ _ _ ("deck", PDict []) []
               [read (dict_update Examples.stored Examples.payload)
                     ("card", PDict [])])].
  eapply reach_step;
    [|apply (r_get _ _ _ _ _ ("card", PDict []) [("deck", PDict [])] [])].
  eapply reach_step; [|apply r_acquire].
  eapply reach_step; [|apply w_release].
  eapply reach_step;
    [|apply (w_assign _ _ _ _ Examples.stored RWait "card"
               (PDict [("C1", Examples.card1')]) [])].
  eapply reach_step; [|apply w_acquire].
  apply reach_start.
Qed.

Lemma get_cards_isolated_witness :
  Ok [Examples.card1] = get_cards Examples.cached "sprint".
Proof.
  exact (proj2 (get_cards_isolated Examples.cached Examples.payload DiskOk
                  "sprint" _ _ reader_first_run eq_refl) eq_refl).
Defined.

End GetCardsIsolation.

(* ================================================================== *)
(** * Further properties of the cache, the client and the commands *)
(* ================================================================== *)

(** ** The text of [last_update] and its reading *)

Section IsoText.

Import Startup.

Lemma digit_char_code (k : Z) :
  0 <= k -> nat_of_ascii (digit_char k) = Z.to_nat (48 + k mod 10).
Proof.
  intros Hk. unfold digit_char. apply nat_ascii_embedding.
  assert (0 <= k mod 10 < 10) by (apply Z.mod_pos_bound; lia). lia.
Qed.

Lemma is_digit_digit_char (k : Z) : 0 <= k -> is_digit (digit_char k) = true.
Proof.
  intros Hk. unfold is_digit. rewrite digit_char_code by exact Hk.
  assert (0 <= k mod 10 < 10) by (apply Z.mod_pos_bound; lia).
  apply andb_true_iff. split; apply Nat.leb_le; lia.
Qed.

Lemma digit_val_digit_char (k : Z) : 0 <= k -> digit_val (digit_char k) = k mod 10.
Proof.
  intros Hk. unfold digit_val. rewrite digit_char_code by exact Hk.
  assert (0 <= k mod 10 < 10) by (apply Z.mod_pos_bound; lia). lia.
Qed.

Lemma parse_year4_four_digits (y : Z) (rest : string) :
  0 <= y <= 9999 ->
  parse_year4 (four_digits y ++ rest) = Some (y, rest).
Proof.
  intros Hy. unfold four_digits, two_digits, parse_year4. cbn [append].
  assert (H3 : 0 <= y / 1000) by (apply Z.div_pos; lia).
  assert (H2 : 0 <= y / 100) by (apply Z.div_pos; lia).
  assert (H1 : 0 <= y / 10) by (apply Z.div_pos; lia).
  rewrite !is_digit_digit_char by lia. cbn [andb].
  rewrite !digit_val_digit_char by lia.
  do 2 f_equal.
  clear H1 H2 H3. Z.div_mod_to_equations. lia.
Qed.

(** The fields of two digits, each over its range, one case per value. *)
Tactic Notation "each_value" constr(n) constr(bound) integer(count) :=
  let k := fresh "k" in
  let Hk := fresh "Hk" in
  assert (Hk : exists k, n = Z.of_nat k /\ (k < bound)%nat)
    by (exists (Z.to_nat n); split; lia);
  destruct Hk as [k [-> Hk]];
  do count (destruct k as [|k]; [first [reflexivity | exfalso; lia]|]);
  lia.

Lemma parse_month_two_digits (m : Z) (rest : string) :
  1 <= m <= 12 -> parse_month (two_digits m ++ rest) = Some (m, rest).
Proof. intros H. each_value m 13%nat 13. Qed.

Lemma parse_day_two_digits (d : Z) (rest : string) :
  1 <= d <= 31 -> parse_day (two_digits d ++ rest) = Some (d, rest).
Proof. intros H. each_value d 32%nat 32. Qed.

Lemma parse_hour_two_digits (h : Z) (rest : string) :
  0 <= h <= 23 -> parse_hour (two_digits h ++ rest) = Some (h, rest).
Proof. intros H. each_value h 24%nat 24. Qed.

Lemma parse_minute_two_digits (m : Z) (rest : string) :
  0 <= m <= 59 -> parse_minute (two_digits m ++ rest) = Some (m, rest).
Proof. intros H. each_value m 60%nat 60. Qed.

Lemma parse_second_two_digits (sec : Z) (rest : string) :
  0 <= sec <= 59 -> parse_second (two_digits sec ++ rest) = Some (sec, rest).
Proof. intros H. each_value sec 60%nat 60. Qed.

Lemma days_in_month_le_31 (y m : Z) : days_in_month y m <= 31.
Proof.
  unfold days_in_month, DAYS_IN_MONTH.
  destruct ((m =? 2) && is_leap y); [lia|].
  destruct (m =? 2); [lia|].
  destruct ((m =? 4) || (m =? 6) || (m =? 9) || (m =? 11)); lia.
Qed.

Lemma strptime_iso_strftime_iso (t : datetime) :
  clock_reading t -> strptime_iso (strftime_iso t) = Ok (to_seconds t).
Proof.
  intros [Hy [Hm [Hd [Hh [Hmi Hs]]]]].
  pose proof (days_in_month_le_31 (year t) (month t)) as H31.
  unfold strptime_iso, parse_iso, strftime_iso.
  rewrite parse_year4_four_digits by lia.
  cbn [and_then expect append Ascii.eqb Bool.eqb].
  rewrite parse_month_two_digits by lia.
  cbn [and_then expect append Ascii.eqb Bool.eqb].
  rewrite parse_day_two_digits by lia.
  cbn [and_then expect_letter append Ascii.eqb Bool.eqb orb].
  rewrite parse_hour_two_digits by lia.
  cbn [and_then expect append Ascii.eqb Bool.eqb].
  rewrite parse_minute_two_digits by lia.
  cbn [and_then expect append Ascii.eqb Bool.eqb].
  rewrite parse_second_two_digits by lia.
  cbn [and_then expect_letter append Ascii.eqb Bool.eqb orb
       year month day second].
  replace (1 <=? year t) with true by (symmetry; apply Z.leb_le; lia).
  replace (day t <=? days_in_month (year t) (month t)) with true
    by (symmetry; apply Z.leb_le; lia).
  replace (second t <=? 59) with true by (symmetry; apply Z.leb_le; lia).
  reflexivity.
Qed.

End IsoText.

(** ** Start-up *)

Section LoadProject.

Import Startup Spec.

Lemma load_project_document (now : datetime) (response : option pydict)
    (d0 : disk) (d : pydict) (t : datetime) (st : state) :
  mirror st = Document d ->
  dict_get "last_update" d = Some (PStr (strftime_iso t)) ->
  clock_reading t ->
  load_project now response d0 true st
  = Ok (mkState d (StampDatetime (to_seconds t)) (Document d)).
Proof.
  intros Hm Hlu Ht. unfold load_project. rewrite Hm. cbn [bind].
  rewrite Hm, Hlu, strptime_iso_strftime_iso by exact Ht.
  unfold set_last_update, set_data; cbn. now rewrite Hm.
Qed.

(** X1: what a successful full fetch leaves on disk, the next process reads
    back: [load_project], started from the state of [__init__] beside that
    file, ends with the snapshot the fetch stored and with [last_update]
    the [datetime] of the fetch, to the second; it neither asks the remote
    service nor writes the file. *)
Theorem restart_restores_snapshot (t : datetime) (r : pydict) (st : state)
    (now' : datetime) (response' : option pydict) (d' : disk) :
  clock_reading t -> r <> [] -> serializable (PDict r) = true ->
  exists st1,
    get_project_data t (Some r) DiskOk st = Ok st1
    /\ load_project now' response' d' true (fresh (mirror st1))
       = Ok (mkState (data st1) (StampDatetime (to_seconds t)) (mirror st1)).
Proof.
  intros Ht Hr Hs.
  destruct (full_fetch_persists t r st Hr Hs) as [st1 [Hget [Hdata [Hlu Hp]]]].
  exists st1. split; [exact Hget|].
  unfold persisted in Hp. rewrite Hlu, Hdata in Hp. cbn [stamp_value] in Hp.
  rewrite dict_set_twice in Hp. rewrite Hp, Hdata.
  apply load_project_document; [reflexivity | | exact Ht].
  rewrite dict_get_set. now rewrite String.eqb_refl.
Qed.

Lemma restart_restores_snapshot_witness :
  exists st1,
    get_project_data Examples.t0 (Some Examples.snapshot) DiskOk init = Ok st1
    /\ load_project Examples.t1 None DiskOk true (fresh (mirror st1))
       = Ok (mkState (data st1) (StampDatetime (to_seconds Examples.t0))
                     (mirror st1)).
Proof.
  apply (restart_restores_snapshot Examples.t0 Examples.snapshot init
           Examples.t1 None DiskOk).
  - repeat split; cbv; discriminate.
  - discriminate.
  - reflexivity.
Defined.

(** X2: when the mirror file is there, [load_project] never raises, never
    asks the remote service and never writes: its outcome does not depend
    on the clock, on what [fetch_project] would answer or on the disk's
    willingness to write.  A file that cannot be opened or decoded leaves
    the state as it was, and a document without a readable ["last_update"]
    becomes the snapshot while [last_update] stays. *)
Theorem load_project_keeps_a_bad_mirror (now : datetime)
    (response : option pydict) (d0 : disk) (can_open : bool) (st : state) :
  mirror st <> Absent ->
  (exists st', load_project now response d0 can_open st = Ok st'
               /\ mirror st' = mirror st)
  /\ (forall now' response' d0',
        load_project now' response' d0' can_open st
        = load_project now response d0 can_open st)
  /\ (mirror st = Damaged \/ can_open = false ->
      load_project now response d0 can_open st = Ok st)
  /\ (forall d, mirror st = Document d -> can_open = true ->
        (forall text, dict_get "last_update" d = Some (PStr text) ->
                      strptime_iso text = Raise ValueError) ->
        load_project now response d0 can_open st = Ok (set_data d st)).
Proof.
  intros Hm. unfold load_project.
  destruct (mirror st) as [|d|] eqn:E; [congruence| |]; cbn [bind];
    rewrite E.
  - split; [|split; [reflexivity|split]].
    + destruct can_open; [|eauto].
      destruct (dict_get "last_update" d) as [v|];
        [destruct v as [ | | |text| | | ]|]; eauto.
      destruct (strptime_iso text); eauto.
    + intros [H | ->]; [discriminate | reflexivity].
    + intros d1 Hd -> Hbad. injection Hd as <-.
      destruct (dict_get "last_update" d) as [v|];
        [destruct v as [ | | |text| | | ]|]; try reflexivity.
      now rewrite (Hbad text eq_refl).
  - split; [|split; [reflexivity|split]].
    + destruct can_open; eauto.
    + intros _. destruct can_open; reflexivity.
    + intros d Hd. discriminate.
Qed.

Lemma load_project_keeps_a_bad_mirror_witness :
  load_project Examples.t1 (Some Examples.snapshot) DiskOk true (fresh Damaged)
  = Ok (fresh Damaged).
Proof.
  refine (proj1 (proj2 (proj2 (load_project_keeps_a_bad_mirror
            Examples.t1 (Some Examples.snapshot) DiskOk true (fresh Damaged) _)))
            _).
  - discriminate.
  - left. reflexivity.
Defined.

(** X3: the first start, with no mirror file.  When [fetch_project] brings
    nothing, [load_project] ends with the snapshot as it was, no file, and
    [last_update] already set to the clock reading.  When it brings a
    snapshot and the disk works, [load_project] ends with that snapshot,
    stored, and [last_update] the [datetime] of the reading to the
    second. *)
Theorem first_start (now : datetime) (st : state) (can_open : bool) :
  mirror st = Absent ->
  (forall response d0,
     truthy response = false ->
     load_project now response d0 can_open st
     = Ok (set_last_update (StampText now) st))
  /\ (forall r,
        r <> [] -> serializable (PDict r) = true -> clock_reading now ->
        load_project now (Some r) DiskOk true st
        = Ok (mkState (dict_set "last_update" (PStr (strftime_iso now)) r)
                      (StampDatetime (to_seconds now))
                      (Document (dict_set "last_update"
                                   (PStr (strftime_iso now)) r)))).
Proof.
  intros Hm. split.
  - intros response d0 Hr. unfold load_project, get_project_data, await.
    rewrite Hm, Hr. cbn [bind set_last_update mirror]. rewrite Hm.
    destruct can_open; reflexivity.
  - intros r Hr Hs Hnow.
    destruct (full_fetch_persists now r st Hr Hs) as [st1 [Hget [Hdata [Hlu Hp]]]].
    unfold persisted in Hp. rewrite Hlu, Hdata in Hp. cbn [stamp_value] in Hp.
    rewrite dict_set_twice in Hp.
    unfold load_project, await. rewrite Hm. cbv beta iota.
    unfold pydict in *. rewrite Hget.
    cbn [bind]. rewrite Hp.
    rewrite dict_get_set, String.eqb_refl.
    rewrite strptime_iso_strftime_iso by exact Hnow.
    unfold set_last_update, set_data; cbn. now rewrite Hp.
Qed.

Lemma first_start_witness :
  load_project Examples.t1 None DiskOk true init
  = Ok (set_last_update (StampText Examples.t1) init).
Proof.
  exact (proj1 (first_start Examples.t1 init true eq_refl) None DiskOk eq_refl).
Defined.

End LoadProject.

(** ** Saving and merging *)

Section SaveAndMerge.

Import Spec.

(** X4: saving twice is saving once.  Unless [os.makedirs] fails,
    [save_project] returns, records [last_update] under ["last_update"] in
    the snapshot in memory whatever the disk does, and a second call on the
    state it leaves changes nothing more, in memory or on disk. *)
Theorem save_project_idempotent (d0 : disk) (st : state) :
  d0 <> MkdirFails ->
  exists st',
    save_project d0 st = Ok st'
    /\ data st' = dict_set "last_update" (stamp_value (last_update st)) (data st)
    /\ last_update st' = last_update st
    /\ save_project d0 st' = Ok st'.
Proof.
  intros Hd. unfold save_project.
  destruct d0; try congruence; cbn [set_data set_mirror data last_update mirror].
  - (* the disk works *)
    destruct (serializable _) eqn:S; eexists; (split; [reflexivity|]);
      cbn [set_data set_mirror data last_update mirror];
      rewrite dict_set_twice, S; repeat split.
  - eexists. split; [reflexivity|].
    cbn [set_data set_mirror data last_update mirror].
    rewrite dict_set_twice. repeat split.
  - eexists. split; [reflexivity|].
    cbn [set_data set_mirror data last_update mirror].
    rewrite dict_set_twice. repeat split.
Qed.

Lemma save_project_idempotent_witness :
  exists st',
    save_project DiskOk Examples.cached = Ok st'
    /\ save_project DiskOk st' = Ok st'.
Proof.
  destruct (save_project_idempotent DiskOk Examples.cached)
    as [st' [H1 [_ [_ H2]]]]; [discriminate|].
  exists st'. split; assumption.
Defined.

Lemma last_value_wf (k : string) (p : pydict) :
  dict_wf p -> last_value k p = dict_get k p.
Proof.
  unfold dict_wf. induction p as [|[k0 v0] p IH]; simpl; [reflexivity|].
  intros Hwf. inversion Hwf as [|? ? Hnotin Hwf']; subst.
  destruct (String.eqb k0 k) eqn:E.
  - apply String.eqb_eq in E; subst k0.
    apply last_value_none in Hnotin. now rewrite Hnotin.
  - rewrite (IH Hwf'). now destruct (dict_get k p).
Qed.

(** X5: after a merge, the cards served are the cards of the payload.  When
    the response of [fetch_cards] carries a mapping under ["card"],
    [get_card_info] on the merged snapshot returns, for every id, the card
    the payload has under that id, and the empty dict for an id the payload
    does not have, whatever the snapshot held before. *)
Theorem merge_serves_payload_cards (st : state) (r pc : pydict) (d0 : disk)
    (card_id : string) :
  dict_wf r -> dict_get "card" r = Some (PDict pc) ->
  get_card_info (get_card_data (Some r) d0 st) card_id
  = Ok (get_or card_id (PDict []) pc).
Proof.
  intros Hwf Hcard.
  assert (T : truthy (Some r) = true) by (destruct r; [discriminate | reflexivity]).
  unfold get_card_info, get_card_data. rewrite T.
  unfold not_awaited, set_data; cbn [data].
  replace (get_or "card" (PDict []) (dict_update (data st) r)) with (PDict pc);
    [reflexivity|].
  unfold get_or.
  now rewrite dict_get_update, (last_value_wf _ _ Hwf), Hcard.
Qed.

Lemma merge_serves_payload_cards_witness :
  get_card_info (get_card_data (Some Examples.payload) DiskOk Examples.cached) "C2"
  = Ok (get_or "C2" (PDict []) [("C1", Examples.card1')]).
Proof.
  apply (merge_serves_payload_cards Examples.cached Examples.payload
           [("C1", Examples.card1')] DiskOk "C2").
  - unfold dict_wf; simpl. repeat constructor. simpl. tauto.
  - reflexivity.
Defined.

End SaveAndMerge.

(** ** Due dates: tokens and failures *)

Section DueTokens.

Import Spec Vocabulary.

Lemma is_digit_cases (a : ascii) :
  is_digit a = true ->
  a = "0"%char \/ a = "1"%char \/ a = "2"%char \/ a = "3"%char
  \/ a = "4"%char \/ a = "5"%char \/ a = "6"%char \/ a = "7"%char
  \/ a = "8"%char \/ a = "9"%char.
Proof.
  destruct a as [[] [] [] [] [] [] [] []]; cbv; intros H;
    try discriminate; auto 10.
Qed.

Ltac each_digit a H :=
  destruct (is_digit_cases a H)
    as [-> | [-> | [-> | [-> | [-> | [-> | [-> | [-> | [-> | ->]]]]]]]]].

Lemma parse_day_token (a b : ascii) (rest : string) :
  is_digit a = true -> is_digit b = true ->
  match parse_day (String a (String b (String "/" rest))) with
  | Some (d, String sep r) =>
      if Ascii.eqb sep "/" then
        d = number a b /\ r = rest /\ 1 <= number a b <= 31
      else ~ 1 <= number a b <= 31
  | _ => ~ 1 <= number a b <= 31
  end.
Proof.
  intros Ha Hb. each_digit a Ha; each_digit b Hb; cbv; intuition congruence.
Qed.

Lemma parse_month_token (a b : ascii) (rest : string) :
  is_digit a = true -> is_digit b = true ->
  match parse_month (String a (String b (String "/" rest))) with
  | Some (m, String sep r) =>
      if Ascii.eqb sep "/" then
        m = number a b /\ r = rest /\ 1 <= number a b <= 12
      else ~ 1 <= number a b <= 12
  | _ => ~ 1 <= number a b <= 12
  end.
Proof.
  intros Ha Hb. each_digit a Ha; each_digit b Hb; cbv; intuition congruence.
Qed.

Lemma parse_year2_token (a b : ascii) (rest : string) :
  is_digit a = true -> is_digit b = true ->
  parse_year2 (String a (String b rest)) = Some (number a b, rest)
  /\ 0 <= number a b <= 99.
Proof.
  intros Ha Hb. unfold parse_year2. rewrite Ha, Hb. split; [reflexivity|].
  each_digit a Ha; each_digit b Hb; cbv; intuition congruence.
Qed.

Lemma expect_slash_digit (b : ascii) (rest : string) :
  is_digit b = true -> expect "/" (String b rest) = None.
Proof. intros Hb. each_digit b Hb; reflexivity. Qed.

Lemma valid_date_day (y m d : Z) : ~ 1 <= d <= 31 -> valid_date y m d = false.
Proof.
  intros H. unfold valid_date. pose proof (days_in_month_le_31 y m).
  destruct (1 <=? m), (m <=? 12); try reflexivity. cbn [andb].
  destruct (Z.leb_spec 1 d); [|reflexivity]. cbn [andb].
  apply Z.leb_gt. lia.
Qed.

Lemma valid_date_month (y m d : Z) : ~ 1 <= m <= 12 -> valid_date y m d = false.
Proof.
  intros H. unfold valid_date.
  destruct (Z.leb_spec 1 m), (Z.leb_spec m 12); try reflexivity. lia.
Qed.

Lemma valid_date_in_range (y m d : Z) :
  1 <= d -> 1 <= m <= 12 -> valid_date y m d = (d <=? days_in_month y m).
Proof.
  intros Hd Hm. unfold valid_date.
  destruct (Z.leb_spec 1 m), (Z.leb_spec m 12), (Z.leb_spec 1 d);
    first [reflexivity | lia].
Qed.

Lemma strptime_due_date_token (a b c d e f : ascii) :
  is_digit a = true -> is_digit b = true -> is_digit c = true ->
  is_digit d = true -> is_digit e = true -> is_digit f = true ->
  strptime_due (date_token a b c d e f)
  = if valid_date (century (number e f)) (number c d) (number a b)
    then Ok (mkDT (century (number e f)) (number c d) (number a b) 0 0 0 0)
    else Raise ValueError.
Proof.
  intros Ha Hb Hc Hd He Hf.
  unfold strptime_due, parse_due, date_token.
  change (expect "[" (String "[" ?x)) with (Some x). cbv beta iota.
  pose proof (parse_day_token a b
                (String c (String d (String "/" (String e (String f "]")))))
                Ha Hb) as Hday.
  destruct (parse_day _) as [[dd [|sep r]]|];
    [now rewrite valid_date_day | | now rewrite valid_date_day].
  unfold expect at 1. destruct (Ascii.eqb sep "/");
    [|now rewrite valid_date_day].
  destruct Hday as [-> [-> Hdd]].
  pose proof (parse_month_token c d (String e (String f "]")) Hc Hd) as Hmonth.
  destruct (parse_month _) as [[mm [|sep' r']]|];
    [now rewrite valid_date_month | | now rewrite valid_date_month].
  unfold expect at 1. destruct (Ascii.eqb sep' "/");
    [|now rewrite valid_date_month].
  destruct Hmonth as [-> [-> Hmm]].
  destruct (parse_year2_token e f "]" He Hf) as [-> _].
  change (expect "]" "]") with (Some EmptyString). cbv beta iota.
  fold (century (number e f)).
  now rewrite valid_date_in_range by lia.
Qed.

Lemma DATE_REGEX_token (s tok : string) :
  DATE_REGEX s = Some tok ->
  exists a b c d e f,
    tok = date_token a b c d e f
    /\ is_digit a = true /\ is_digit b = true /\ is_digit c = true
    /\ is_digit d = true /\ is_digit e = true /\ is_digit f = true.
Proof.
  unfold DATE_REGEX.
  destruct s as [|o [|d1 [|d2 [|s1 [|m1 [|m2 [|s2 [|y1 [|y2 [|c s]]]]]]]]]];
    try discriminate.
  destruct (Ascii.eqb o "[" && is_digit d1 && is_digit d2 && Ascii.eqb s1 "/"
            && is_digit m1 && is_digit m2 && Ascii.eqb s2 "/"
            && is_digit y1 && is_digit y2 && Ascii.eqb c "]") eqn:E;
    [|discriminate].
  repeat (apply andb_true_iff in E; destruct E as [E ?]).
  repeat match goal with
         | H : Ascii.eqb _ _ = true |- _ => apply Ascii.eqb_eq in H; subst
         end.
  intros H; injection H as <-.
  exists d1, d2, m1, m2, y1, y2. repeat split; assumption.
Qed.

Lemma findall_from_tokens (s : string) (k : nat) (m : string) :
  In m (findall_from k s) -> exists s', DATE_REGEX s' = Some m.
Proof.
  revert k. induction s as [|c s IH]; intros k; [contradiction|].
  cbn [findall_from]. destruct k as [|k]; [|apply IH].
  destruct (DATE_REGEX (String c s)) as [tok|] eqn:E; [|apply IH].
  intros [<-|H]; [eauto | exact (IH _ H)].
Qed.

Lemma century_range (y : Z) : 0 <= y <= 99 -> 1969 <= century y <= 2068.
Proof. intros H. unfold century. destruct (Z.leb_spec y 68); lia. Qed.

(** X6: how a due date is read, in a content whose characters are code
    points 0..255 (the texts a [string] stands for; beyond them [\d] has
    more digits than these).  Every match that [re.findall] returns for
    [DATE_REGEX] is a text [[DD/MM/YY]] whose six characters are digits
    '0'..'9', and [strptime] reads it as day DD of month MM of the year
    2000+YY when YY is at most 68 and 1900+YY otherwise, a year from 1969
    to 2068, at midnight; when that is no date of the calendar it raises
    [ValueError]. *)
Theorem due_token_reading (s m : string) :
  In m (re_findall s) ->
  exists a b c d e f,
    m = date_token a b c d e f
    /\ Forall (fun x => is_digit x = true) [a; b; c; d; e; f]
    /\ 1969 <= century (number e f) <= 2068
    /\ strptime_due m
       = if valid_date (century (number e f)) (number c d) (number a b)
         then Ok (mkDT (century (number e f)) (number c d) (number a b) 0 0 0 0)
         else Raise ValueError.
Proof.
  intros H. apply findall_from_tokens in H. destruct H as [s' H].
  apply DATE_REGEX_token in H.
  destruct H as [a [b [c [d [e [f [-> [Ha [Hb [Hc [Hd [He Hf]]]]]]]]]]]].
  exists a, b, c, d, e, f. split; [reflexivity|]. split; [|split].
  - repeat (apply Forall_cons; [assumption|]). apply Forall_nil.
  - apply century_range. now apply (parse_year2_token e f EmptyString).
  - now apply strptime_due_date_token.
Qed.

Lemma due_token_reading_witness :
  exists a b c d e f,
    "[01/02/69]" = date_token a b c d e f
    /\ Forall (fun x => is_digit x = true) [a; b; c; d; e; f]
    /\ 1969 <= century (number e f) <= 2068
    /\ strptime_due "[01/02/69]"
       = if valid_date (century (number e f)) (number c d) (number a b)
         then Ok (mkDT (century (number e f)) (number c d) (number a b) 0 0 0 0)
         else Raise ValueError.
Proof.
  apply (due_token_reading "was due [01/02/69], late"). left. reflexivity.
Defined.

End DueTokens.

(** ** Due dates: one bad card *)

Section DueFailures.

Import Spec.

Lemma comprehension_raises {X Y : Type} (f : X -> result Y) (e : exn)
    (l : list X) :
  Forall (fun a => (exists b, f a = Ok b) \/ f a = Raise e) l ->
  Exists (fun a => f a = Raise e) l ->
  comprehension always f l = Raise e.
Proof.
  intros Hall Hex. induction Hall as [|a l Ha _ IH]; [inversion Hex|].
  cbn [comprehension always bind].
  destruct Ha as [[b Hb]|Ha]; [|now rewrite Ha].
  rewrite Hb. cbn [bind]. rewrite IH; [reflexivity|].
  inversion Hex as [? ? H|? ? H]; subst; [congruence | exact H].
Qed.

Lemma strptime_due_raises (m : string) (e : exn) :
  strptime_due m = Raise e -> e = ValueError.
Proof.
  unfold strptime_due. destruct (parse_due m) as [[[d mo] y]|]; [|congruence].
  destruct (d <=? _); congruence.
Qed.

Lemma due_scan_readable (vs : list pyval) :
  Forall (fun c => exists s, content_of c = Ok s) vs ->
  comprehension
    (fun c => s <- content_of c ;; Ok (re_search s))
    (fun c => s <- content_of c ;; Ok (mkDue c (re_findall s)))
    vs
  = Ok (due_entries vs).
Proof.
  intros H. apply comprehension_total.
  eapply Forall_impl; [|exact H].
  intros c [s Hs]. unfold has_due, entry_of. rewrite Hs. split; reflexivity.
Qed.

(** X7: one card whose first token is no date of the calendar makes
    [get_due_cards] raise [ValueError], whatever the other cards, the clock
    and [days_ahead] are: no due date is listed then. *)
Theorem one_bad_date_breaks_get_due_cards (clock : nat -> datetime)
    (st : state) (days_ahead : Z) (cs : pydict) (c : pyval) (s m : string)
    (rest : list string) :
  get_or "card" (PDict []) (data st) = PDict cs ->
  Forall (fun c => exists s, content_of c = Ok s) (dict_values cs) ->
  In c (dict_values cs) ->
  content_of c = Ok s -> re_findall s = m :: rest ->
  strptime_due m = Raise ValueError ->
  get_due_cards clock st days_ahead = Raise ValueError.
Proof.
  intros Hcards Hread Hin Hs Hm Hbad.
  unfold get_due_cards. rewrite Hcards. cbn [py_values bind].
  rewrite due_scan_readable by exact Hread. cbn [bind].
  unfold sort_due.
  rewrite (comprehension_raises _ ValueError); [reflexivity | |].
  - apply Forall_forall. intros x Hx.
    destruct (due_entries_in _ x Hx) as [_ [sx [_ [Hmx Hne]]]].
    unfold due_key. rewrite Hmx.
    destruct (re_findall sx) as [|mx restx]; [congruence|].
    destruct (strptime_due mx) as [t|e] eqn:E; cbn [bind]; [eauto|].
    right. now rewrite (strptime_due_raises mx e E).
  - apply Exists_exists. exists (entry_of c). split.
    + unfold due_entries. apply in_map, filter_In. split; [exact Hin|].
      unfold has_due. rewrite Hs. apply re_search_findall. congruence.
    + unfold due_key, entry_of. cbn [matches]. now rewrite Hs, Hm, Hbad.
Qed.

Lemma one_bad_date_breaks_get_due_cards_witness :
  get_due_cards Examples.noon
    (Examples.with_cards [("A", Examples.card_soon); ("B", Examples.card_never)])
    30
  = Raise ValueError.
Proof.
  apply (one_bad_date_breaks_get_due_cards Examples.noon _ 30
           [("A", Examples.card_soon); ("B", Examples.card_never)]
           Examples.card_never "[31/02/25] renew" "[31/02/25]" []).
  - reflexivity.
  - apply Forall_cons; [|apply Forall_cons; [|apply Forall_nil]];
      eexists; reflexivity.
  - right. left. reflexivity.
  - reflexivity.
  - reflexivity.
  - reflexivity.
Defined.

End DueFailures.

(** ** Runs of refresh cycles *)

Section RefreshRuns.

Import Startup.

Lemma run_keeps_mirror (cs : list cycle) (st : state) :
  Forall (fun s => mirror s = mirror st) (check_for_activity_process cs st).
Proof.
  revert st. induction cs as [|c cs IH]; intros st; cbn [check_for_activity_process];
    [constructor|].
  pose proof (cycle_keeps_mirror c st) as Hc.
  destruct (get_history_data c st) as [st' [e|]]; cbn [fst] in Hc.
  - constructor; [exact Hc | constructor].
  - constructor; [exact Hc|].
    eapply Forall_impl; [|apply IH]. intros s Hs. now rewrite Hs.
Qed.

(** X8: no run of refresh cycles writes the mirror file: after every cycle
    of the background task the file is what it was before the first one,
    merges included, so a process started from the file at any point loads
    what it would have loaded before the run. *)
Theorem refresh_never_writes_the_mirror (cs : list cycle) (st s : state) :
  In s (check_for_activity_process cs st) ->
  mirror s = mirror st
  /\ forall t response d0 can_open,
       load_project t response d0 can_open (fresh (mirror s))
       = load_project t response d0 can_open (fresh (mirror st)).
Proof.
  intros Hs. pose proof (run_keeps_mirror cs st) as H.
  rewrite Forall_forall in H. specialize (H s Hs).
  split; [exact H|]. intros. now rewrite H.
Qed.

Lemma refresh_never_writes_the_mirror_witness :
  mirror (fst (get_history_data Examples.cycle_merge Examples.cached))
  = mirror Examples.cached.
Proof.
  refine (proj1 (refresh_never_writes_the_mirror
                   [Examples.cycle_merge; Examples.cycle_quiet]
                   Examples.cached _ _)).
  left. reflexivity.
Defined.

(** X9: when [fetch_history] answers with its activities as a mapping (the
    shape cards and decks have in the snapshot), the loop over it yields
    the keys, [activity["card"]] raises [TypeError] on the first one, and
    the cycle ends there: [last_update] is already advanced, [fetch_cards]
    is not called, and the background task runs no further cycle. *)
Theorem activity_mapping_ends_refresher (c : cycle) (cs : list cycle)
    (st : state) (r : pydict) (k : string) (v : pyval) (d : pydict) :
  fetch_history c (last_update st) = Some r ->
  dict_get "activity" r = Some (PDict ((k, v) :: d)) ->
  get_history_data c st
  = (set_last_update (StampText (now c)) st, Some TypeError)
  /\ check_for_activity_process (c :: cs) st
     = [set_last_update (StampText (now c)) st].
Proof.
  intros Hh Ha.
  assert (H : get_history_data c st
              = (set_last_update (StampText (now c)) st, Some TypeError)).
  { unfold get_history_data. rewrite Hh.
    destruct r as [|kv r]; [discriminate|]. cbn [truthy].
    unfold get_or. now rewrite Ha. }
  split; [exact H|]. cbn [check_for_activity_process]. now rewrite H.
Qed.

Lemma activity_mapping_ends_refresher_witness :
  check_for_activity_process
    [mkCycle (fun _ => Some [("activity",
                              PDict [("a1", PDict [("card", PStr "C1")])])])
             (fun _ => Some Examples.payload) Examples.t1 DiskOk;
     Examples.cycle_merge]
    Examples.cached
  = [set_last_update (StampText Examples.t1) Examples.cached].
Proof.
  exact (proj2 (activity_mapping_ends_refresher
                  (mkCycle (fun _ => Some [("activity",
                              PDict [("a1", PDict [("card", PStr "C1")])])])
                           (fun _ => Some Examples.payload) Examples.t1 DiskOk)
                  [Examples.cycle_merge] Examples.cached _ "a1" _ [] eq_refl
                  eq_refl)).
Defined.

End RefreshRuns.

(** ** The place of the mirror *)

Section MirrorPath.

Import Account.

Lemma length_append (a b : string) :
  String.length (a ++ b) = (String.length a + String.length b)%nat.
Proof. induction a as [|x a IH]; simpl; [reflexivity | now rewrite IH]. Qed.

Lemma append_cancel_r (a b r : string) :
  (a ++ r = b ++ r)%string -> a = b.
Proof.
  revert b. induction a as [|x a IH]; intros [|y b] H.
  - reflexivity.
  - exfalso. apply (f_equal String.length) in H.
    simpl in H. rewrite length_append in H. lia.
  - exfalso. apply (f_equal String.length) in H.
    simpl in H. rewrite length_append in H. lia.
  - simpl in H. injection H as -> H. f_equal. now apply IH.
Qed.

Lemma no_sep_ends (s : string) :
  contains "/" s = false -> ends_with_sep s = false.
Proof.
  induction s as [|c s IH]; [reflexivity|].
  cbn [contains starts_with]. intros H.
  apply orb_false_iff in H. destruct H as [H1 H2].
  rewrite andb_true_r in H1.
  destruct s as [|c' s]; [|exact (IH H2)].
  cbn [ends_with_sep]. now rewrite Ascii.eqb_sym.
Qed.

Lemma ends_with_sep_append (a s : string) :
  s <> EmptyString -> ends_with_sep (a ++ s) = ends_with_sep s.
Proof.
  intros Hs. induction a as [|c a IH]; [reflexivity|].
  cbn [append ends_with_sep]. destruct (a ++ s)%string eqn:E; [|exact IH].
  destruct a; [simpl in E; congruence | discriminate].
Qed.

Lemma data_filepath_plain (a : api) :
  CODECKS_SUBDOMAIN a <> EmptyString ->
  contains "/" (CODECKS_SUBDOMAIN a) = false ->
  data_filepath a = ("data/" ++ CODECKS_SUBDOMAIN a ++ "/codecks.json")%string.
Proof.
  intros Hne Hsep. unfold data_filepath, data_dir, path_join, CODECKS_DATA_DIR.
  assert (H1 : starts_with "/" (CODECKS_SUBDOMAIN a) = false).
  { destruct (CODECKS_SUBDOMAIN a); [reflexivity|].
    cbn [contains] in Hsep. now apply orb_false_iff in Hsep. }
  rewrite H1. cbn [String.eqb orb ends_with_sep Ascii.eqb Bool.eqb starts_with andb].
  change ("data" ++ "/" ++ CODECKS_SUBDOMAIN a)%string
    with ("data/" ++ CODECKS_SUBDOMAIN a)%string.
  rewrite ends_with_sep_append by exact Hne.
  rewrite (no_sep_ends _ Hsep), orb_false_r.
  reflexivity.
Qed.

(** X10: two accounts never share a mirror.  For two constructions that
    succeed, with account names free of ["/"], equal mirror paths mean equal
    account names, and the path is ["data/<account>/codecks.json"]. *)
Theorem mirror_paths_do_not_collide (token1 sub1 token2 sub2 : option string)
    (a1 a2 : api) :
  CodecksAPI_init token1 sub1 = Ok a1 ->
  CodecksAPI_init token2 sub2 = Ok a2 ->
  contains "/" (CODECKS_SUBDOMAIN a1) = false ->
  contains "/" (CODECKS_SUBDOMAIN a2) = false ->
  data_filepath a1 = ("data/" ++ CODECKS_SUBDOMAIN a1 ++ "/codecks.json")%string
  /\ (data_filepath a1 = data_filepath a2 ->
      CODECKS_SUBDOMAIN a1 = CODECKS_SUBDOMAIN a2).
Proof.
  intros H1 H2 S1 S2.
  assert (N : forall t s a, CodecksAPI_init t s = Ok a ->
                            CODECKS_SUBDOMAIN a <> EmptyString).
  { intros t s a. unfold CodecksAPI_init.
    destruct t as [[|c t]|]; cbn [unset]; try discriminate.
    destruct s as [[|c' s]|]; cbn [unset]; try discriminate.
    intros H; injection H as <-. discriminate. }
  pose proof (N _ _ _ H1) as N1. pose proof (N _ _ _ H2) as N2.
  rewrite !data_filepath_plain by assumption.
  split; [reflexivity|].
  intros H. injection H as H. now apply append_cancel_r in H.
Qed.

Lemma mirror_paths_do_not_collide_witness :
  data_filepath (mkApi "secret" "nivalis") = "data/nivalis/codecks.json".
Proof.
  exact (proj1 (mirror_paths_do_not_collide
                  (Some "secret") (Some "nivalis") (Some "other") (Some "studio")
                  (mkApi "secret" "nivalis") (mkApi "other" "studio")
                  eq_refl eq_refl eq_refl eq_refl)).
Defined.

End MirrorPath.

(** ** The commands *)

Section Commands.

Import Telegram Spec.

Variable str_of : pyval -> string.
Variable int_of : string -> result Z.
Variable mew_text : string.
Variable users : list Z.

Lemma check_permissions_refuses (update : Update) (id : Z) :
  effective_user update = Some id -> user_authorised users id = false ->
  callback_query update <> None \/ message update = true ->
  check_permissions users update = ([refusal update], Ok false).
Proof.
  intros Hu Ha Hc. unfold check_permissions, reply_to, refusal.
  rewrite Hu, Ha. cbn [negb].
  destruct (callback_query update) as [q|]; [reflexivity|].
  destruct Hc as [Hc|Hc]; [congruence|]. now rewrite Hc.
Qed.

Lemma check_permissions_accepts (update : Update) (id : Z) :
  effective_user update = Some id -> user_authorised users id = true ->
  check_permissions users update = ([], Ok true).
Proof.
  intros Hu Ha. unfold check_permissions. now rewrite Hu, Ha.
Qed.

(** X11: a user who is not in the list gets the refusal and nothing else.
    Whatever the command, its arguments, the button pressed and the
    snapshot, the handler makes one call, the refusal, and returns; the
    cache is not read: the outcome is the same for every snapshot and
    clock. *)
Theorem unauthorised_user_gets_only_the_refusal (clock : nat -> datetime)
    (st : state) (c : command) (update : Update) (args : option (list string))
    (b : bot) (id : Z) :
  effective_user update = Some id -> user_authorised users id = false ->
  callback_query update <> None \/ message update = true ->
  on_update str_of int_of mew_text users clock st c update args b
  = (([refusal update], Ok tt), b).
Proof.
  intros Hu Ha Hc.
  pose proof (check_permissions_refuses update id Hu Ha Hc) as H.
  destruct c; cbn [on_update];
    unfold help, mew, say, start, list_decks, list_cards, card_info,
           upcoming_due_dates, handle_callback_query, stop;
    rewrite H; reflexivity.
Qed.

End Commands.

Lemma unauthorised_user_gets_only_the_refusal_witness :
  Telegram.on_update (fun _ => EmptyString) (fun _ => Raise ValueError) "mew" [7; 9]
    Examples.noon Examples.cached Telegram.cmd_cards
    (Telegram.mkUpdate (Some 8) None true) (Some ["Sprint"]) (Telegram.mkBot true)
  = (([Telegram.reply_text "You are not authorised to use this bot." None None], Ok tt),
     Telegram.mkBot true).
Proof.
  apply (unauthorised_user_gets_only_the_refusal (fun _ => EmptyString)
           (fun _ => Raise ValueError) "mew" [7; 9] Examples.noon Examples.cached
           Telegram.cmd_cards (Telegram.mkUpdate (Some 8) None true)
           (Some ["Sprint"]) (Telegram.mkBot true) 8).
  - reflexivity.
  - reflexivity.
  - right. reflexivity.
Defined.


Section StopAndMenu.

Import Telegram Spec.

Variable str_of : pyval -> string.
Variable int_of : string -> result Z.
Variable mew_text : string.
Variable users : list Z.

(** X12: no command ends the loop of [Bot.start].  [stop], for a user of
    the list, answers "Shutting down..." and creates the coroutine of
    [Bot.shutdown] without awaiting it, so [stay_alive] is what it was; and
    after any update, whatever the command, [stay_alive] is what it was. *)
Theorem stop_leaves_the_bot_running (clock : nat -> datetime) (st : state)
    (update : Update) (args : option (list string)) (b : bot) (id : Z) :
  effective_user update = Some id -> user_authorised users id = true ->
  callback_query update = None -> message update = true ->
  on_update str_of int_of mew_text users clock st cmd_stop update args b
  = (([reply_text "Shutting down..." None None], Ok tt), b)
  /\ forall c update' args',
       snd (on_update str_of int_of mew_text users clock st c update' args' b)
       = b.
Proof.
  intros Hu Ha Hq Hm. split.
  - cbn [on_update]. unfold stop.
    rewrite (check_permissions_accepts users update id Hu Ha), Hm.
    reflexivity.
  - intros c update' args'. destruct c; try reflexivity.
    cbn [on_update]. unfold stop.
    destruct (check_permissions users update') as [l [[|]|e]];
      try reflexivity.
    destruct (message update'); reflexivity.
Qed.

(** X13: the menu of decks needs a ["deck"] entry.  On a snapshot without
    one (the empty snapshot of a start that could not load or fetch), the
    default of [get_decks] is a list, [decks.values()] raises
    [AttributeError], and [decks] and [start] end there without a call:
    the user gets no answer. *)
Theorem decks_menu_needs_deck_entry (clock : nat -> datetime) (st : state)
    (c : command) (update : Update) (args : option (list string)) (b : bot)
    (id : Z) :
  effective_user update = Some id -> user_authorised users id = true ->
  dict_get "deck" (data st) = None ->
  c = cmd_decks \/ c = cmd_start ->
  on_update str_of int_of mew_text users clock st c update args b
  = (([], Raise AttributeError), b).
Proof.
  intros Hu Ha Hd Hc.
  destruct Hc as [-> | ->]; cbn [on_update]; unfold start, list_decks;
    rewrite (check_permissions_accepts users update id Hu Ha);
    unfold get_decks, get_or; rewrite Hd; reflexivity.
Qed.

End StopAndMenu.

Lemma stop_leaves_the_bot_running_witness :
  Telegram.on_update (fun _ => EmptyString) (fun _ => Raise ValueError) "mew"
    [7; 9] Examples.noon Examples.cached Telegram.cmd_stop
    (Telegram.mkUpdate (Some 7) None true) (Some []) (Telegram.mkBot true)
  = (([Telegram.reply_text "Shutting down..." None None], Ok tt),
     Telegram.mkBot true).
Proof.
  apply (stop_leaves_the_bot_running (fun _ => EmptyString)
           (fun _ => Raise ValueError) "mew" [7; 9] Examples.noon
           Examples.cached (Telegram.mkUpdate (Some 7) None true) (Some [])
           (Telegram.mkBot true) 7); reflexivity.
Defined.

Lemma decks_menu_needs_deck_entry_witness :
  Telegram.on_update (fun _ => EmptyString) (fun _ => Raise ValueError) "mew"
    [7; 9] Examples.noon init Telegram.cmd_start
    (Telegram.mkUpdate (Some 7) None true) (Some []) (Telegram.mkBot true)
  = (([], Raise AttributeError), Telegram.mkBot true).
Proof.
  apply (decks_menu_needs_deck_entry (fun _ => EmptyString)
           (fun _ => Raise ValueError) "mew" [7; 9] Examples.noon init
           Telegram.cmd_start (Telegram.mkUpdate (Some 7) None true) (Some [])
           (Telegram.mkBot true) 7);
    [reflexivity | reflexivity | reflexivity | right; reflexivity].
Defined.

(** ** From a button back to the cache *)

Section Words.

Import Telegram.

Lemma append_assoc (a b c : string) : ((a ++ b) ++ c = a ++ b ++ c)%string.
Proof. induction a as [|x a IH]; simpl; [reflexivity | now rewrite IH]. Qed.

(** Every word of [split] stands in the text it was split from. *)
Lemma split_from_words (s : string) (word : option string) (pre w : string) :
  In w (split_from word s) ->
  exists p r,
    (pre ++ match word with Some a => a | None => EmptyString end ++ s
     = p ++ w ++ r)%string.
Proof.
  revert word pre. induction s as [|c s IH]; intros word pre.
  - destruct word as [a|]; [|contradiction].
    intros [<-|[]]. now exists pre, EmptyString.
  - cbn [split_from]. destruct (is_space c).
    + destruct word as [a|].
      * intros [<-|H]; [now exists pre, (String c s)|].
        destruct (IH None (pre ++ a ++ String c EmptyString)%string H)
          as [p [r E]].
        exists p, r. rewrite <- E. cbn [append].
        rewrite !append_assoc. reflexivity.
      * intros H.
        destruct (IH None (pre ++ String c EmptyString)%string H) as [p [r E]].
        exists p, r. rewrite <- E. cbn [append].
        rewrite !append_assoc. reflexivity.
    + intros H. destruct word as [a|].
      * destruct (IH _ pre H) as [p [r E]].
        exists p, r. rewrite <- E. rewrite !append_assoc. reflexivity.
      * destruct (IH _ pre H) as [p [r E]].
        exists p, r. rewrite <- E. reflexivity.
Qed.

Lemma split_word_in_text (s w : string) :
  In w (split s) -> contains w s = true.
Proof.
  intros H. apply contains_spec.
  destruct (split_from_words s None EmptyString w H) as [p [r E]].
  now exists p, r.
Qed.

Lemma lower_append (a b : string) : lower (a ++ b) = (lower a ++ lower b)%string.
Proof. induction a as [|x a IH]; simpl; [reflexivity | now rewrite IH]. Qed.

Lemma contains_lower (w s : string) :
  contains w s = true -> contains (lower w) (lower s) = true.
Proof.
  rewrite !contains_spec. intros [p [r ->]].
  exists (lower p), (lower r). now rewrite !lower_append.
Qed.

Lemma first_word_in_text (s : string) :
  contains (lower (hd EmptyString (split s))) (lower s) = true.
Proof.
  destruct (split s) as [|w l] eqn:E; cbn [hd].
  - apply contains_empty.
  - apply contains_lower, split_word_in_text. rewrite E. now left.
Qed.

End Words.

Section DeckButton.

Import Telegram Spec.

Variable str_of : pyval -> string.
Variable users : list Z.

Lemma comprehension_always_total {X Y : Type} (f : X -> result Y) (l : list X) :
  Forall (fun a => exists b, f a = Ok b) l ->
  exists bs, comprehension always f l = Ok bs /\ List.length bs = List.length l.
Proof.
  induction 1 as [|a l [b Hb] _ [bs [IH Hlen]]].
  - now exists [].
  - exists (b :: bs). cbn [comprehension always bind].
    rewrite Hb. cbn [bind]. rewrite IH. cbn [bind List.length].
    now rewrite Hlen.
Qed.

Lemma title_field (deck : pyval) (T : string) :
  field "title" deck = PStr T ->
  exists d, deck = PDict d /\ dict_get "title" d = Some (PStr T).
Proof.
  destruct deck as [ | | | | |d| ]; cbn [field]; try discriminate.
  unfold get_or.
  destruct (dict_get "title" d) as [v|] eqn:E; [|discriminate].
  intros ->. now exists d.
Qed.

(** X14: the button of a deck leads to its cards.  [list_decks] gives the
    deck of title T the callback data ["/cards T"]; when that button is
    pressed, [handle_callback_query] answers the query and edits the message
    into the list [get_cards] returns for the first word of T (the empty
    filter when T has no word), one button per card and the return button
    last; on a snapshot of the data model every card of that deck is in the
    list. *)
Theorem deck_button_lists_its_cards (st : state) (update : Update) (id : Z)
    (cs ds : pydict) (deck c : pyval) (T : string) :
  effective_user update = Some id -> user_authorised users id = true ->
  get_or "card" (PDict []) (data st) = PDict cs ->
  get_or "deck" (PDict []) (data st) = PDict ds ->
  Forall deck_ok (dict_values ds) -> Forall card_ok (dict_values cs) ->
  In deck (dict_values ds) -> field "title" deck = PStr T ->
  In c (dict_values cs) -> py_eq (field "deckId" c) (field "id" deck) = true ->
  callback_query update = Some (Some ("/cards " ++ T)%string) ->
  deck_button str_of deck = Ok [mkButton (PStr T) ("/cards " ++ T)%string]
  /\ exists cards buttons,
       get_cards st (hd EmptyString (split T)) = Ok cards
       /\ In c cards
       /\ comprehension always
            (card_button str_of (hd EmptyString (split T))) cards = Ok buttons
       /\ List.length buttons = List.length cards
       /\ handle_callback_query str_of users st update None
          = ([answer;
              edit_message_text
                ("Cards for: " ++ hd EmptyString (split T))%string
                (Some (buttons ++ [return_to_decks])) None],
             Ok tt).
Proof.
  intros Hu Ha Hcs Hds Hdecks Hcards Hdeck HT Hc Hown Hq.
  destruct (title_field deck T HT) as [d [-> Hd]].
  split.
  { unfold deck_button. cbn [py_get bind]. unfold get_or. now rewrite Hd. }
  set (w := hd EmptyString (split T)).
  assert (Hget : get_cards st w
                 = Ok (filter (in_matching_deck w (dict_values ds))
                              (dict_values cs))).
  { unfold get_cards. rewrite Hcs, Hds. now apply matching_cards_total. }
  assert (Hin : In c (filter (in_matching_deck w (dict_values ds))
                             (dict_values cs))).
  { apply filter_In. split; [exact Hc|].
    unfold in_matching_deck. apply existsb_exists.
    exists (PDict d). split; [exact Hdeck|].
    rewrite Hown, andb_true_r. unfold title_contains, title_of. rewrite HT.
    apply first_word_in_text. }
  destruct (comprehension_always_total (card_button str_of w)
              (filter (in_matching_deck w (dict_values ds)) (dict_values cs)))
    as [buttons [Hb Hlen]].
  { apply Forall_forall. intros x Hx. apply filter_In in Hx.
    rewrite Forall_forall in Hcards. destruct (Hcards x (proj1 Hx)) as [dx ->].
    eexists. reflexivity. }
  exists (filter (in_matching_deck w (dict_values ds)) (dict_values cs)), buttons.
  split; [exact Hget|]. split; [exact Hin|]. split; [exact Hb|].
  split; [exact Hlen|].
  unfold handle_callback_query.
  rewrite (check_permissions_accepts users update id Hu Ha), Hq.
  cbn [hbind negb emit app].
  change (starts_with "/cards" ("/cards " ++ T)) with true. cbv beta iota.
  change (tl (split ("/cards " ++ T))) with (split T).
  unfold list_cards.
  rewrite (check_permissions_accepts users update id Hu Ha).
  cbn [hbind negb app].
  fold w.
  replace (match split T with a :: _ => a | [] => EmptyString end) with w
    by (unfold w; destruct (split T); reflexivity).
  rewrite Hget. cbn [lift hbind app]. rewrite Hb. cbn [lift hbind app].
  unfold reply_to. rewrite Hq. reflexivity.
Qed.

End DeckButton.

Lemma deck_button_lists_its_cards_witness :
  exists cards buttons,
    get_cards Examples.cached "Sprint" = Ok cards
    /\ In Examples.card1 cards
    /\ Telegram.handle_callback_query (fun _ => EmptyString) [7; 9]
         Examples.cached
         (Telegram.mkUpdate (Some 7) (Some (Some "/cards Sprint")) false) None
       = ([Telegram.answer;
           Telegram.edit_message_text "Cards for: Sprint"
             (Some (buttons ++ [Telegram.return_to_decks])) None],
          Ok tt).
Proof.
  destruct (deck_button_lists_its_cards (fun _ => EmptyString) [7; 9]
              Examples.cached
              (Telegram.mkUpdate (Some 7) (Some (Some "/cards Sprint")) false)
              7 [("C1", Examples.card1); ("C2", Examples.card2)]
              [("D1", Examples.deck1); ("D2", Examples.deck2)]
              Examples.deck1 Examples.card1 "Sprint")
    as [_ [cards [buttons [H1 [H2 [_ [_ H3]]]]]]];
    try reflexivity.
  - apply Forall_cons; [|apply Forall_cons; [|apply Forall_nil]];
      eexists; (split; [reflexivity|]); right; eexists; reflexivity.
  - apply Forall_cons; [|apply Forall_cons; [|apply Forall_nil]];
      eexists; reflexivity.
  - left. reflexivity.
  - left. reflexivity.
  - exists cards, buttons. repeat split; assumption.
Defined.

Section CardButton.

Import Telegram Spec Vocabulary.

Variable str_of : pyval -> string.
Variable users : list Z.

Lemma append_nil_r (s : string) : (s ++ "")%string = s.
Proof. induction s as [|c s IH]; simpl; [reflexivity | now rewrite IH]. Qed.

Lemma split_from_run (w acc rest : string) :
  no_space w = true ->
  split_from (Some acc) (w ++ rest) = split_from (Some (acc ++ w)%string) rest.
Proof.
  revert acc. induction w as [|c w IH]; intros acc H.
  - cbn [append]. now rewrite append_nil_r.
  - cbn [no_space] in H. apply andb_true_iff in H. destruct H as [Hc Hw].
    apply negb_true_iff in Hc.
    cbn [append split_from]. rewrite Hc, (IH _ Hw).
    now rewrite append_assoc.
Qed.

Lemma split_from_word (w rest : string) :
  is_word w = true ->
  split_from None (w ++ rest) = split_from (Some w) rest.
Proof.
  unfold is_word. destruct w as [|c w]; [discriminate|].
  cbn [String.eqb negb andb no_space]. intros H.
  apply andb_true_iff in H. destruct H as [Hc Hw].
  apply negb_true_iff in Hc.
  cbn [append split_from]. rewrite Hc. now apply split_from_run.
Qed.

Lemma split_as_args (w : string) :
  w = EmptyString \/ is_word w = true -> split_from None w = as_args w.
Proof.
  intros [-> | H]; [reflexivity|].
  rewrite <- (append_nil_r w) at 1. rewrite (split_from_word _ _ H).
  unfold as_args. unfold is_word in H.
  destruct (w =? "")%string; [discriminate | reflexivity].
Qed.

(** X15: what the button of a card opens.  [list_cards], listing for the
    filter [w], gives a card the callback data ["/cardinfo <cardId> <w>"].
    When the button is pressed and the card's [cardId] is a word,
    [handle_callback_query] answers the query and then does what
    [card_info] does for that id with [w] as the deck to return to.  When
    the card has no [cardId], the words shift: [card_info] is run with the
    filter in the place of the id, or with no argument at all when the
    filter is empty. *)
Theorem card_button_opens (st : state) (update : Update) (id : Z)
    (d : pydict) (w : string) :
  effective_user update = Some id -> user_authorised users id = true ->
  w = EmptyString \/ is_word w = true ->
  callback_query update
  = Some (Some ("/cardinfo " ++ py_str str_of (get_or "cardId" (PStr "") d)
                ++ " " ++ w)%string) ->
  card_button str_of w (PDict d)
  = Ok [mkButton
          (PStr (py_str str_of (get_or "title" (PStr "Err: No Title") d)))
          ("/cardinfo " ++ py_str str_of (get_or "cardId" (PStr "") d)
           ++ " " ++ w)%string]
  /\ (is_word (py_str str_of (get_or "cardId" (PStr "") d)) = true ->
      handle_callback_query str_of users st update None
      = after_answer
          (card_info str_of users st update
             (Some (py_str str_of (get_or "cardId" (PStr "") d) :: as_args w))))
  /\ (dict_get "cardId" d = None ->
      handle_callback_query str_of users st update None
      = after_answer (card_info str_of users st update (Some (as_args w)))).
Proof.
  intros Hu Ha Hw Hq. split; [reflexivity|].
  assert (Hrun : forall K args,
            callback_query update = Some (Some ("/cardinfo " ++ K ++ " " ++ w)%string) ->
            tl (split ("/cardinfo " ++ K ++ " " ++ w)) = args ->
            handle_callback_query str_of users st update None
            = after_answer (card_info str_of users st update (Some args))).
  { intros K args HqK Hargs. unfold handle_callback_query.
    rewrite (check_permissions_accepts users update id Hu Ha), HqK.
    cbn [hbind negb emit app].
    change (starts_with "/cards" ("/cardinfo " ++ K ++ " " ++ w)) with false.
    change (starts_with "/cardinfo" ("/cardinfo " ++ K ++ " " ++ w)) with true.
    cbv beta iota. rewrite Hargs. unfold after_answer.
    destruct (card_info str_of users st update (Some args)) as [l r].
    reflexivity. }
  split.
  - intros HK. apply (Hrun _ _ Hq).
    change (tl (split ("/cardinfo " ++ ?K ++ " " ++ w)))
      with (split_from None (K ++ " " ++ w)).
    rewrite (split_from_word _ _ HK). cbn [append split_from].
    change (is_space " ") with true. cbv beta iota.
    now rewrite split_as_args.
  - intros Hnone. unfold get_or in Hq. rewrite Hnone in Hq. cbn [py_str] in Hq.
    apply (Hrun _ _ Hq).
    change (tl (split ("/cardinfo " ++ "" ++ " " ++ w)))
      with (split_from None w).
    now apply split_as_args.
Qed.

End CardButton.

Lemma card_button_opens_witness :
  Telegram.handle_callback_query (fun _ => EmptyString) [7; 9] Examples.cached
    (Telegram.mkUpdate (Some 7) (Some (Some "/cardinfo  Sprint")) false) None
  = Vocabulary.after_answer
      (Telegram.card_info (fun _ => EmptyString) [7; 9] Examples.cached
         (Telegram.mkUpdate (Some 7) (Some (Some "/cardinfo  Sprint")) false)
         (Some ["Sprint"])).
Proof.
  refine (proj2 (proj2 (card_button_opens (fun _ => EmptyString) [7; 9]
            Examples.cached
            (Telegram.mkUpdate (Some 7) (Some (Some "/cardinfo  Sprint")) false)
            7 [("title", PStr "Fix bug"); ("content", PStr "due [01/02/24]");
               ("deckId", PStr "D1")]
            "Sprint" _ _ _ _)) _); try reflexivity.
  right. reflexivity.
Defined.

(** ** The horizon grows with [days_ahead] *)

Section HorizonGrowsForCards.

Import Spec.

(** X16: a longer horizon never hides a card.  On a snapshot of
    well-formed cards, read at one clock reading, every entry that
    [get_due_cards] returns for [days_ahead = n1 > 0] is also returned for
    any [n2 >= n1], as long as both horizons can be computed. *)
Theorem longer_horizon_keeps_cards (st : state) (cs : pydict)
    (clock : nat -> datetime) (t limit1 limit2 : datetime) (n1 n2 : Z) :
  get_or "card" (PDict []) (data st) = PDict cs ->
  Forall content_ok (dict_values cs) ->
  (forall k, clock k = t) ->
  0 < n1 <= n2 ->
  add_days t n1 = Ok limit1 -> add_days t n2 = Ok limit2 ->
  exists l1 l2,
    get_due_cards clock st n1 = Ok l1
    /\ get_due_cards clock st n2 = Ok l2
    /\ incl l1 l2.
Proof.
  intros Hcards Hok Hclock Hn H1 H2.
  destruct (sort_due_total _ (due_entries_keys _ Hok)) as [all [Hs [Hp _]]].
  assert (Hkeys : Forall (fun x => exists d, due_key x = Ok d) all).
  { eapply Permutation_Forall; [exact Hp | now apply due_entries_keys]. }
  assert (Hrun : forall n limit,
            0 < n -> add_days t n = Ok limit ->
            get_due_cards clock st n = Ok (filter (due_by limit) all)).
  { intros n limit Hpos Hlimit. unfold get_due_cards. rewrite Hcards.
    cbn [py_values bind]. rewrite due_scan_total by exact Hok. cbn [bind].
    rewrite Hs. cbn [bind]. apply Z.ltb_lt in Hpos. rewrite Hpos.
    now apply within_horizon_fixed_clock with (t := t). }
  exists (filter (due_by limit1) all), (filter (due_by limit2) all).
  split; [apply Hrun; [lia | exact H1]|].
  split; [apply Hrun; [lia | exact H2]|].
  intros x Hx. apply filter_In in Hx. destruct Hx as [Hin Hby].
  apply filter_In. split; [exact Hin|].
  unfold due_by in *. destruct (due_key x) as [d|]; [|discriminate].
  apply (dt_le_trans d limit1 limit2); [exact Hby|].
  apply (add_days_monotone t n1 n2); [lia | exact H1 | exact H2].
Qed.

Lemma longer_horizon_keeps_cards_witness :
  exists l1 l2,
    get_due_cards Examples.noon
      (Examples.with_cards
         [("A", Examples.card_moved); ("B", Examples.card_soon);
          ("C", Examples.card_later); ("D", Examples.card2)]) 2 = Ok l1
    /\ get_due_cards Examples.noon
         (Examples.with_cards
            [("A", Examples.card_moved); ("B", Examples.card_soon);
             ("C", Examples.card_later); ("D", Examples.card2)]) 10 = Ok l2
    /\ incl l1 l2.
Proof.
  apply (longer_horizon_keeps_cards _
           [("A", Examples.card_moved); ("B", Examples.card_soon);
            ("C", Examples.card_later); ("D", Examples.card2)]
           Examples.noon (Examples.noon 0)
           (mkDT 2025 1 3 12 0 0 0) (mkDT 2025 1 11 12 0 0 0) 2 10).
  - reflexivity.
  - exact example_cards_ok.
  - reflexivity.
  - lia.
  - reflexivity.
  - reflexivity.
Defined.

End HorizonGrowsForCards.

(** ** Readers after a merge, and what a cycle asks for *)

Section AfterMerge.

Import Spec.

(** X17: after a merge the readers see the cards of the payload and the
    decks of before.  When the response of [fetch_cards] carries a mapping
    under ["card"] and nothing under ["deck"], [get_cards] on the merged
    snapshot computes from the payload's cards and the snapshot's decks, and
    [get_due_cards] from the payload's cards alone. *)
Theorem readers_after_merge (st : state) (r pc : pydict) (d0 : disk) :
  dict_wf r -> dict_get "card" r = Some (PDict pc) -> dict_get "deck" r = None ->
  (forall deck_id,
     get_cards (get_card_data (Some r) d0 st) deck_id
     = matching_cards (PDict pc) (get_or "deck" (PDict []) (data st)) deck_id)
  /\ (forall clock days_ahead,
        get_due_cards clock (get_card_data (Some r) d0 st) days_ahead
        = get_due_cards clock (set_data [("card", PDict pc)] st) days_ahead).
Proof.
  intros Hwf Hcard Hdeck.
  assert (T : truthy (Some r) = true) by (destruct r; [discriminate | reflexivity]).
  assert (Hc : get_or "card" (PDict []) (dict_update (data st) r) = PDict pc).
  { unfold get_or.
    now rewrite dict_get_update, (last_value_wf _ _ Hwf), Hcard. }
  assert (Hd : get_or "deck" (PDict []) (dict_update (data st) r)
               = get_or "deck" (PDict []) (data st)).
  { unfold get_or.
    now rewrite dict_get_update, (last_value_wf _ _ Hwf), Hdeck. }
  split.
  - intros deck_id. unfold get_cards, get_card_data. rewrite T.
    unfold not_awaited, set_data; cbn [data]. now rewrite Hc, Hd.
  - intros clock days_ahead. unfold get_due_cards, get_card_data. rewrite T.
    unfold not_awaited, set_data; cbn [data]. now rewrite Hc.
Qed.

Lemma readers_after_merge_witness :
  get_cards (get_card_data (Some Examples.payload) DiskOk Examples.cached) ""
  = matching_cards (PDict [("C1", Examples.card1')])
      (get_or "deck" (PDict []) (data Examples.cached)) "".
Proof.
  refine (proj1 (readers_after_merge Examples.cached Examples.payload
                   [("C1", Examples.card1')] DiskOk _ _ _) "").
  - unfold dict_wf; simpl. repeat constructor. simpl. tauto.
  - reflexivity.
  - reflexivity.
Defined.

(** X18: a cycle asks for one card id per activity.  When [fetch_history]
    answers with a non-empty list of activities, each a mapping with a
    ["card"], the cycle calls [fetch_cards] with the list of those values in
    the order of the activities, repeated ids repeated, and merges what it
    answers. *)
Theorem cycle_asks_for_each_activity (c : cycle) (st : state) (r : pydict)
    (a : pyval) (acts : list pyval) :
  fetch_history c (last_update st) = Some r ->
  dict_get "activity" r = Some (PList (a :: acts)) ->
  Forall (fun x => exists d v, x = PDict d /\ dict_get "card" d = Some v)
         (a :: acts) ->
  get_history_data c st
  = (get_card_data (fetch_cards c (map (field "card") (a :: acts))) (fs c)
       (set_last_update (StampText (now c)) st),
     None)
  /\ List.length (map (field "card") (a :: acts)) = List.length (a :: acts).
Proof.
  intros Hh Ha Hall. split; [|apply length_map].
  unfold get_history_data. rewrite Hh.
  destruct r as [|kv r]; [discriminate|]. cbn [truthy].
  unfold get_or. rewrite Ha. cbn [py_len py_iter bind].
  replace (0 <? Z.of_nat (List.length (a :: acts))) with true
    by (symmetry; apply Z.ltb_lt; cbn [List.length]; lia).
  rewrite (comprehension_total always card_of (fun _ => true) (field "card")).
  - now rewrite filter_all.
  - eapply Forall_impl; [|exact Hall].
    intros x [d [v [-> Hv]]]. split; [reflexivity|]. intros _.
    cbn [card_of field]. unfold get_or. now rewrite Hv.
Qed.

Lemma cycle_asks_for_each_activity_witness :
  get_history_data Examples.cycle_merge Examples.cached
  = (get_card_data (Some Examples.payload) DiskOk
       (set_last_update (StampText Examples.t1) Examples.cached),
     None).
Proof.
  refine (proj1 (cycle_asks_for_each_activity Examples.cycle_merge
                   Examples.cached Examples.history_one
                   (PDict [("card", PStr "C1")]) [] eq_refl eq_refl _)).
  apply Forall_cons; [|apply Forall_nil].
  exists [("card", PStr "C1")], (PStr "C1"). split; reflexivity.
Defined.

End AfterMerge.
